(** * FerretDB: the PostgreSQL test helpers, the storage mapper and the
    document codec

    The first part is a shallow embedding of [internal/util/testutil/pg.go]:
    [PoolConnString], [SchemaName], [Schema], [TableName] and [Table],
    together with the parts of Go's [strings], [testing] and testify's
    [require] packages they call.  A helper is a state-passing function on
    the state of the running test (and of the backend behind the pool) whose
    outcome says whether the call returned or ended the test's goroutine.

    The second part models what the helpers and tests rely on and the
    sources do not contain: the error values and namespace operations of
    package [pgdb], the document model, and the binary document codec.

    Go strings are byte sequences: they are [string] here, one [ascii] per
    byte, and [len] is [String.length]. *)

From Stdlib Require Import String Ascii List Bool Arith Lia.
From Stdlib Require Import ZArith DecimalString.
From Stdlib.Strings Require Import Byte.
From stdpp Require Import base option gmap strings list fin_maps.
From coqutil Require Import Byte Word.LittleEndianList.

Local Open Scope string_scope.
Set Warnings "-register-all".

(** ** Go's [strings] package *)

Module Strings.

(** The behaviour of [strings] that depends on UTF-8 decoding and on the
    Unicode case tables is taken as given: [MapToLower s] is
    [strings.Map(unicode.ToLower, s)], reached by [ToLower] only for a
    string with a byte outside ASCII, and [ReplaceEmpty s new] is
    [strings.Replace] with an empty [old], which inserts [new] at every rune
    boundary.  Everything proved below holds for every such behaviour. *)
Class Unicode := {
  MapToLower : string -> string;
  ReplaceEmpty : string -> string -> string
}.

(** [c >= utf8.RuneSelf] fails: the byte is ASCII. *)
Definition isASCIIByte (c : ascii) : bool := (nat_of_ascii c <? 128)%nat.

(** ['A' <= c && c <= 'Z'] *)
Definition isUpperByte (c : ascii) : bool :=
  ((65 <=? nat_of_ascii c) && (nat_of_ascii c <=? 90))%nat.

(** [c += 'a' - 'A'] for an upper-case byte. *)
Definition lowerByte (c : ascii) : ascii :=
  if isUpperByte c then ascii_of_nat (nat_of_ascii c + 32)%nat else c.

Fixpoint allBytes (p : ascii -> bool) (s : string) : bool :=
  match s with
  | EmptyString => true
  | String c s' => p c && allBytes p s'
  end.

Fixpoint anyByte (p : ascii -> bool) (s : string) : bool :=
  match s with
  | EmptyString => false
  | String c s' => p c || anyByte p s'
  end.

Fixpoint mapBytes (f : ascii -> ascii) (s : string) : string :=
  match s with
  | EmptyString => EmptyString
  | String c s' => String (f c) (mapBytes f s')
  end.

Definition isASCII (s : string) : bool := allBytes isASCIIByte s.
Definition hasUpper (s : string) : bool := anyByte isUpperByte s.

(** [strings.ToLower]: an ASCII-only string without an upper-case letter is
    returned as it is, an ASCII-only string is lowered byte by byte, and
    any other string goes through [strings.Map(unicode.ToLower, s)]. *)
Definition ToLower `{Unicode} (s : string) : string :=
  if isASCII s then
    if hasUpper s then mapBytes lowerByte s else s
  else MapToLower s.

(** [strings.HasPrefix] *)
Fixpoint HasPrefix (s prefix : string) : bool :=
  match prefix, s with
  | EmptyString, _ => true
  | String p prefix', String c s' => Ascii.eqb p c && HasPrefix s' prefix'
  | String _ _, EmptyString => false
  end.

(** The replacement loop of [strings.Replace(s, old, new, -1)] for a
    non-empty [old]: the leftmost occurrence of [old] is replaced by [new]
    and the scan resumes after it, so occurrences do not overlap.  [skip]
    counts the bytes of a matched occurrence still to be passed over. *)
Fixpoint replaceFrom (old new : string) (skip : nat) (s : string) : string :=
  match s with
  | EmptyString => EmptyString
  | String c s' =>
      match skip with
      | S k => replaceFrom old new k s'
      | O =>
          if HasPrefix s old
          then new ++ replaceFrom old new (String.length old - 1)%nat s'
          else String c (replaceFrom old new 0 s')
      end
  end.

(** [strings.ReplaceAll(s, old, new)], which is
    [strings.Replace(s, old, new, -1)]. *)
Definition ReplaceAll `{Unicode} (s old new : string) : string :=
  if String.eqb old new then s
  else match old with
       | EmptyString => ReplaceEmpty s new
       | String _ _ => replaceFrom old new 0 s
       end.

(** An instance of [Unicode] for running the helpers on ASCII-only inputs
    with a non-empty pattern, where neither field is reached; it leaves any
    other string as it is. *)
Definition ASCIIOnly : Unicode :=
  {| MapToLower := fun s => s; ReplaceEmpty := fun s _ => s |}.

(** [s[n:]] for [n <= len(s)]. *)
Fixpoint dropBytes (n : nat) (s : string) : string :=
  match n, s with
  | O, _ => s
  | S n', String _ s' => dropBytes n' s'
  | S _, EmptyString => EmptyString
  end.

(** [strings.Cut(s, sep)]: the text before and after the first [sep]. *)
Fixpoint Cut (s sep : string) : option (string * string) :=
  if HasPrefix s sep then Some (EmptyString, dropBytes (String.length sep) s)
  else match s with
       | EmptyString => None
       | String c s' =>
           match Cut s' sep with
           | Some (before, after) => Some (String c before, after)
           | None => None
           end
       end.

(** [strings.Split(s, sep)] for a one-byte [sep]. *)
Fixpoint SplitByte (s : string) (sep : ascii) : list string :=
  match s with
  | EmptyString => EmptyString :: nil
  | String c s' =>
      if Ascii.eqb c sep then EmptyString :: SplitByte s' sep
      else match SplitByte s' sep with
           | field :: fields => String c field :: fields
           | nil => String c EmptyString :: nil
           end
  end.

(** Two bytes are the same ASCII letter in either case, or the same byte. *)
Definition sameLetter (c d : ascii) : bool :=
  Ascii.eqb (lowerByte c) (lowerByte d).

(** Two names are equal up to the case of their ASCII letters. *)
Fixpoint equalFoldASCII (a b : string) : bool :=
  match a, b with
  | EmptyString, EmptyString => true
  | String c a', String d b' => sameLetter c d && equalFoldASCII a' b'
  | _, _ => false
  end.

End Strings.

(** ** Outcomes of a call running in a test goroutine *)

(** A call made by a test either returns, or ends the goroutine
    ([runtime.Goexit], which is how [FailNow] and [SkipNow] stop a test), or
    panics. *)
Inductive outcome (A : Type) : Type :=
  | Returned (a : A)
  | Goexit
  | Panic (msg : string).

Arguments Returned {A} a.
Arguments Goexit {A}.
Arguments Panic {A} msg.

(** State-passing computations over a state [S] with the outcomes above. *)
Definition M (S A : Type) : Type := S -> outcome A * S.

#[export] Instance M_ret {S} : MRet (M S) := fun A a s => (Returned a, s).

#[export] Instance M_bind {S} : MBind (M S) := fun A B f m s =>
  match m s with
  | (Returned a, s') => f a s'
  | (Goexit, s') => (Goexit, s')
  | (Panic msg, s') => (Panic msg, s')
  end.

Definition modify {S} (f : S -> S) : M S unit := fun s => (Returned tt, f s).
Definition panic {S A} (msg : string) : M S A := fun s => (Panic msg, s).

(** ** Error values *)

(** Modelled from the spec: the error values of package [pgdb], which is not
    among the sources.  The spec names two distinguished conditions,
    [NamespaceNotFound] and [NamespaceAlreadyExists]; [pg.go] names the first
    one [pgdb.ErrTableNotExist] and uses it for schemas and tables alike.
    A sentinel is one package-level value.  Any other error is a value of its
    own, which may wrap another error ([fmt.Errorf] with [%w]) and then shares
    the wrapped error's kind without being the same value. *)
Inductive error : Type :=
  | ErrTableNotExist
  | ErrAlreadyExist
  | ErrWrap (msg : string) (inner : error)
  | ErrNew (msg : string).

(** Go's [==] on two error values.  The sources compare with a sentinel only,
    where identity of values is equality of constructors. *)
Fixpoint error_eqb (a b : error) : bool :=
  match a, b with
  | ErrTableNotExist, ErrTableNotExist => true
  | ErrAlreadyExist, ErrAlreadyExist => true
  | ErrWrap m e, ErrWrap m' e' => String.eqb m m' && error_eqb e e'
  | ErrNew m, ErrNew m' => String.eqb m m'
  | _, _ => false
  end.

(** The kinds of error of the spec's taxonomy that concern namespaces. *)
Inductive ErrKind : Type :=
  | NamespaceNotFound
  | NamespaceAlreadyExists
  | OtherError.

(** The kind of an error value: a wrapper has the kind of what it wraps. *)
Fixpoint kindOf (e : error) : ErrKind :=
  match e with
  | ErrTableNotExist => NamespaceNotFound
  | ErrAlreadyExist => NamespaceAlreadyExists
  | ErrWrap _ inner => kindOf inner
  | ErrNew _ => OtherError
  end.

(** ** Go's [testing.TB] and testify's [require] *)

(** The functions handed to [tb.Cleanup] by this package, as data: the
    closure of [Schema] keeps the schema's name. *)
Inductive cleanup : Type :=
  | cleanupSchema (schema : string).

(** What a test writes to its log. *)
Inductive logEntry : Type :=
  | Logged (format : string) (args : list string)
  | NotLess (a b : nat)
  | UnexpectedError (err : error).

(** The state behind a [testing.TB]: the test's name, the [-short] flag of
    the test binary (read by [testing.Short]), whether the test has failed or
    was skipped, its log, and the registered cleanup functions, the last
    registered first. *)
Record TB : Type := mkTB {
  tb_name : string;
  tb_short : bool;
  tb_failed : bool;
  tb_skipped : bool;
  tb_log : list logEntry;
  tb_cleanups : list cleanup
}.

Definition setFailed (tb : TB) : TB :=
  mkTB (tb_name tb) (tb_short tb) true (tb_skipped tb) (tb_log tb) (tb_cleanups tb).

Definition setSkipped (tb : TB) : TB :=
  mkTB (tb_name tb) (tb_short tb) (tb_failed tb) true (tb_log tb) (tb_cleanups tb).

Definition addLog (e : logEntry) (tb : TB) : TB :=
  mkTB (tb_name tb) (tb_short tb) (tb_failed tb) (tb_skipped tb)
       (tb_log tb ++ e :: nil) (tb_cleanups tb).

Definition addCleanup (c : cleanup) (tb : TB) : TB :=
  mkTB (tb_name tb) (tb_short tb) (tb_failed tb) (tb_skipped tb)
       (tb_log tb) (c :: tb_cleanups tb).

Module testing.

(** [tb.Helper()] only changes which source line a failure is reported at. *)
Definition Helper : M TB unit := mret tt.

Definition Name : M TB string := fun tb => (Returned (tb_name tb), tb).
Definition Failed : M TB bool := fun tb => (Returned (tb_failed tb), tb).
Definition Short : M TB bool := fun tb => (Returned (tb_short tb), tb).

Definition Log (e : logEntry) : M TB unit := modify (addLog e).
Definition Logf (format : string) (args : list string) : M TB unit :=
  Log (Logged format args).

(** [tb.FailNow()] marks the test failed and ends its goroutine. *)
Definition FailNow {A} : M TB A := fun tb => (Goexit, setFailed tb).

(** [tb.SkipNow()] marks the test skipped and ends its goroutine. *)
Definition SkipNow {A} : M TB A := fun tb => (Goexit, setSkipped tb).

(** [tb.Skip(args...)] is [tb.Log(args...)] followed by [tb.SkipNow()]. *)
Definition Skip (msg : string) : M TB unit := Log (Logged msg nil) ;; SkipNow.

(** [tb.Errorf] is [tb.Logf] followed by [tb.Fail()]. *)
Definition Error (e : logEntry) : M TB unit := Log e ;; modify setFailed.

Definition Cleanup (c : cleanup) : M TB unit := modify (addCleanup c).

End testing.

Module require.

(** [require.Less(tb, a, b)]: reports and stops the test unless [a < b]. *)
Definition Less (a b : nat) : M TB unit :=
  if (a <? b)%nat then mret tt
  else testing.Error (NotLess a b) ;; testing.FailNow.

(** [require.NoError(tb, err)]: reports and stops the test unless [err] is
    nil. *)
Definition NoError (err : option error) : M TB unit :=
  match err with
  | None => mret tt
  | Some e => testing.Error (UnexpectedError e) ;; testing.FailNow
  end.

End require.

(** ** [PoolConnString] *)

(** [PoolOpts] represents options for creating a connection pool. *)
Record PoolOpts : Type := mkPoolOpts {
  ReadOnly : bool
}.

(** [new(PoolOpts)]: the zero value. *)
Definition newPoolOpts : PoolOpts := mkPoolOpts false.

(** Reading [opts.ReadOnly] through a [*PoolOpts]; a nil pointer panics. *)
Definition deref_ReadOnly {S} (opts : option PoolOpts) : M S bool :=
  match opts with
  | Some o => mret (ReadOnly o)
  | None => panic "invalid memory address or nil pointer dereference"
  end.

(** [PoolConnString] returns PostgreSQL connection string for testing. *)
Definition PoolConnString (opts : option PoolOpts) : M TB string :=
  testing.Helper ;;
  short ← testing.Short ;
  (if short : bool then testing.Skip "skipping in -short mode" else mret tt) ;;
  let opts := match opts with
              | None => Some newPoolOpts
              | Some _ => opts
              end in
  readOnly ← deref_ReadOnly opts ;
  let username := if readOnly : bool then "readonly" else "postgres" in
  mret ("postgres://" ++ username ++ "@127.0.0.1:5432/ferretdb?pool_min_conns=1").

(** ** [SchemaName] and [TableName] *)

Section Names.
Context `{Strings.Unicode}.

(** [SchemaName] returns a stable schema name for that test. *)
Definition SchemaName : M TB string :=
  testing.Helper ;;
  name ← testing.Name ;
  let name := Strings.ToLower name in
  let name := Strings.ReplaceAll name "/" "-" in
  let name := Strings.ReplaceAll name " " "-" in
  require.Less (String.length name) 64 ;;
  mret name.

(** [TableName] returns a stable table name for that test. *)
Definition TableName : M TB string :=
  testing.Helper ;;
  name ← testing.Name ;
  let name := Strings.ToLower name in
  let name := Strings.ReplaceAll name "/" "-" in
  let name := Strings.ReplaceAll name " " "-" in
  mret name.

End Names.

(** ** [Schema] and [Table] *)

(** Modelled from the spec: the four namespace operations of [*pgdb.Pool]
    that [pg.go] calls; package [pgdb] is not among the sources.  [P] is the
    state of the backend behind the pool.  Each operation returns Go's
    [error] ([None] is nil) and the backend's next state.  The
    [context.Context] argument, which only carries cancellation, is left
    out.  The pool is one that answers: a nil [*pgdb.Pool], on which a call
    panics, is not modelled. *)
Class Pgdb (P : Type) : Type := {
  DropDatabase : string -> P -> option error * P;
  CreateDatabase : string -> P -> option error * P;
  DropCollection : string -> string -> P -> option error * P;
  CreateCollection : string -> string -> P -> option error * P
}.

(** A test helper runs on the test's state and on the backend's. *)
Definition onTB {P A} (m : M TB A) : M (TB * P) A := fun s =>
  let (r, tb') := m (fst s) in (r, (tb', snd s)).

Definition onPool {P A} (f : P -> A * P) : M (TB * P) A := fun s =>
  let (a, p') := f (snd s) in (Returned a, (fst s, p')).

(** [if err == pgdb.ErrTableNotExist { err = nil }] *)
Definition ignoreTableNotExist (err : option error) : option error :=
  match err with
  | Some e => if error_eqb e ErrTableNotExist then None else err
  | None => None
  end.

Section Helpers.
Context `{Strings.Unicode} {P : Type} `{Pgdb P}.

(** [Schema] creates a new FerretDB database / PostgreSQL schema for testing.
    Name is stable for that test.  It is automatically dropped if test
    pass. *)
Definition Schema : M (TB * P) string :=
  onTB testing.Helper ;;
  schema ← onTB SchemaName ;
  onTB (testing.Logf "Using schema %q." (schema :: nil)) ;;
  err ← onPool (DropDatabase schema) ;
  let err := ignoreTableNotExist err in
  onTB (require.NoError err) ;;
  err ← onPool (CreateDatabase schema) ;
  onTB (require.NoError err) ;;
  onTB (testing.Cleanup (cleanupSchema schema)) ;;
  mret schema.

(** The function [Schema] hands to [tb.Cleanup]. *)
Definition runCleanup (c : cleanup) : M (TB * P) unit :=
  match c with
  | cleanupSchema schema =>
      failed ← onTB testing.Failed ;
      if failed : bool then
        onTB (testing.Logf "Keeping schema %q for debugging." (schema :: nil))
      else
        err ← onPool (DropDatabase schema) ;
        let err := ignoreTableNotExist err in
        onTB (require.NoError err)
  end.

(** [Table] creates FerretDB collection / PostgreSQL table for testing.
    Name is stable for that test. *)
Definition Table (db : string) : M (TB * P) string :=
  onTB testing.Helper ;;
  table ← onTB TableName ;
  onTB (testing.Logf "Using table %q." (table :: nil)) ;;
  err ← onPool (DropCollection db table) ;
  let err := ignoreTableNotExist err in
  onTB (require.NoError err) ;;
  err ← onPool (CreateCollection db table) ;
  onTB (require.NoError err) ;;
  mret table.

End Helpers.

(** ** Reading the results back *)

(** Two names differ only in letter case. *)
Definition differOnlyInCase (a b : string) : Prop :=
  a <> b /\ Strings.equalFoldASCII a b = true.

(** The transformation of a test name in words: lowercase the name, replace
    every "/" and every " " with "-". *)
Definition dashByte (c : ascii) : ascii :=
  if Ascii.eqb c "/" || Ascii.eqb c " " then "-"%char else c.

Definition specName `{Strings.Unicode} (name : string) : string :=
  Strings.mapBytes dashByte (Strings.ToLower name).

(** How a connection string of the form
    [scheme://user@host:port/database?key=value&key=value] is read. *)
Module ConnString.
Import Strings.

(** The user: what stands between "://" and "@". *)
Definition user (cs : string) : option string :=
  match Cut cs "://" with
  | Some (_, rest) =>
      match Cut rest "@" with
      | Some (u, _) => Some u
      | None => None
      end
  | None => None
  end.

Fixpoint lookupParam (key : string) (fields : list string) : option string :=
  match fields with
  | nil => None
  | field :: fields' =>
      match Cut field "=" with
      | Some (k, v) => if String.eqb k key then Some v else lookupParam key fields'
      | None => lookupParam key fields'
      end
  end.

(** The value of the query parameter [key]. *)
Definition param (key cs : string) : option string :=
  match Cut cs "?" with
  | Some (_, query) => lookupParam key (SplitByte query "&")
  | None => None
  end.

End ConnString.

(** What the options ask for; a nil pointer asks for nothing. *)
Definition readOnlyOf (opts : option PoolOpts) : bool :=
  match opts with
  | Some o => ReadOnly o
  | None => false
  end.

(** The user name [PoolConnString] picks for an options value. *)
Definition roleUser (opts : PoolOpts) : string :=
  if ReadOnly opts then "readonly" else "postgres".

(** The connection string of a user. *)
Definition connStringOf (username : string) : string :=
  "postgres://" ++ username ++ "@127.0.0.1:5432/ferretdb?pool_min_conns=1".

(** ** A backend that answers from a script *)

(** The calls a helper makes on the pool. *)
Inductive call : Type :=
  | callDropDatabase (db : string)
  | callCreateDatabase (db : string)
  | callDropCollection (db table : string)
  | callCreateCollection (db table : string).

(** A backend that records the calls it receives and answers each with the
    next entry of a script (nil once the script is used up): any sequence of
    results a pool can give. *)
Record Scripted : Type := mkScripted {
  script : list (option error);
  calls : list call
}.

Definition answer (c : call) (s : Scripted) : option error * Scripted :=
  match script s with
  | nil => (None, mkScripted nil (calls s ++ c :: nil))
  | r :: rest => (r, mkScripted rest (calls s ++ c :: nil))
  end.

#[export] Instance Scripted_Pgdb : Pgdb Scripted := {|
  DropDatabase db := answer (callDropDatabase db);
  CreateDatabase db := answer (callCreateDatabase db);
  DropCollection db table := answer (callDropCollection db table);
  CreateCollection db table := answer (callCreateCollection db table)
|}.

(** A test named [name] that has just started, [-short] not set. *)
Definition newTB (name : string) : TB := mkTB name false false false nil nil.

(** ** Documents *)

(** Modelled from the spec: the document model of section 3, which the
    sources use without defining it.  A document is an ordered sequence of
    named, typed fields; the value kinds are the number variants (a double,
    kept as its 64 bits, a 32-bit and a 64-bit integer), string, boolean,
    null, nested document, array, binary, date-time, identifier, decimal (kept
    as its 128 bits), regex and timestamp. *)
Inductive value : Type :=
  | VDouble (bits : Z)
  | VString (s : string)
  | VDocument (fields : list (string * value))
  | VArray (items : list value)
  | VBinary (subtype : byte) (data : list byte)
  | VObjectID (id : list byte)
  | VBool (b : bool)
  | VDateTime (millis : Z)
  | VNull
  | VRegex (pattern options : string)
  | VInt32 (n : Z)
  | VTimestamp (t : Z)
  | VInt64 (n : Z)
  | VDecimal128 (bits : Z).

(** Induction on values that reaches the fields of a document and the items
    of an array. *)
Section ValueInduction.
Variable Q : value -> Prop.
Hypothesis HDouble : forall bits, Q (VDouble bits).
Hypothesis HString : forall s, Q (VString s).
Hypothesis HDocument : forall fields,
  Forall (fun kv => Q (snd kv)) fields -> Q (VDocument fields).
Hypothesis HArray : forall items, Forall Q items -> Q (VArray items).
Hypothesis HBinary : forall subtype data, Q (VBinary subtype data).
Hypothesis HObjectID : forall id, Q (VObjectID id).
Hypothesis HBool : forall b, Q (VBool b).
Hypothesis HDateTime : forall millis, Q (VDateTime millis).
Hypothesis HNull : Q VNull.
Hypothesis HRegex : forall pattern options, Q (VRegex pattern options).
Hypothesis HInt32 : forall n, Q (VInt32 n).
Hypothesis HTimestamp : forall t, Q (VTimestamp t).
Hypothesis HInt64 : forall n, Q (VInt64 n).
Hypothesis HDecimal128 : forall bits, Q (VDecimal128 bits).

Fixpoint value_nested_ind (v : value) : Q v :=
  match v with
  | VDouble bits => HDouble bits
  | VString s => HString s
  | VDocument fields =>
      HDocument fields
        ((fix go (l : list (string * value)) : Forall (fun kv => Q (snd kv)) l :=
            match l with
            | nil => @List.Forall_nil _ _
            | kv :: l' => @List.Forall_cons _ _ kv l' (value_nested_ind (snd kv)) (go l')
            end) fields)
  | VArray items =>
      HArray items
        ((fix go (l : list value) : Forall Q l :=
            match l with
            | nil => @List.Forall_nil _ _
            | x :: l' => @List.Forall_cons _ _ x l' (value_nested_ind x) (go l')
            end) items)
  | VBinary subtype data => HBinary subtype data
  | VObjectID id => HObjectID id
  | VBool b => HBool b
  | VDateTime millis => HDateTime millis
  | VNull => HNull
  | VRegex pattern options => HRegex pattern options
  | VInt32 n => HInt32 n
  | VTimestamp t => HTimestamp t
  | VInt64 n => HInt64 n
  | VDecimal128 bits => HDecimal128 bits
  end.

End ValueInduction.

Abbreviation Document := (list (string * value)).

(** The value of field [key], the first one of that name. *)
Fixpoint lookupField (key : string) (d : Document) : option value :=
  match d with
  | nil => None
  | (k, v) :: d' => if String.eqb k key then Some v else lookupField key d'
  end.

Fixpoint bytes_eqb (x y : list byte) : bool :=
  match x, y with
  | nil, nil => true
  | b :: x', b' :: y' => Byte.eqb b b' && bytes_eqb x' y'
  | _, _ => false
  end.

(** Equality of values, field by field and in order. *)
Fixpoint value_eqb (a b : value) : bool :=
  let fix fields_eqb (x y : list (string * value)) : bool :=
    match x, y with
    | nil, nil => true
    | (k, v) :: x', (k', v') :: y' =>
        String.eqb k k' && value_eqb v v' && fields_eqb x' y'
    | _, _ => false
    end in
  let fix items_eqb (x y : list value) : bool :=
    match x, y with
    | nil, nil => true
    | v :: x', v' :: y' => value_eqb v v' && items_eqb x' y'
    | _, _ => false
    end in
  match a, b with
  | VDouble x, VDouble y => Z.eqb x y
  | VString x, VString y => String.eqb x y
  | VDocument x, VDocument y => fields_eqb x y
  | VArray x, VArray y => items_eqb x y
  | VBinary s x, VBinary s' y => Byte.eqb s s' && bytes_eqb x y
  | VObjectID x, VObjectID y => bytes_eqb x y
  | VBool x, VBool y => Bool.eqb x y
  | VDateTime x, VDateTime y => Z.eqb x y
  | VNull, VNull => true
  | VRegex p o, VRegex p' o' => String.eqb p p' && String.eqb o o'
  | VInt32 x, VInt32 y => Z.eqb x y
  | VTimestamp x, VTimestamp y => Z.eqb x y
  | VInt64 x, VInt64 y => Z.eqb x y
  | VDecimal128 x, VDecimal128 y => Z.eqb x y
  | _, _ => false
  end.

(** ** The storage mapper *)

(** Modelled from the spec: the storage mapper of section 4.4, which is in
    package [pgdb] and not among the sources.  The catalog maps a database
    (a schema) to its collections (tables), and a collection to its rows in
    the order they were inserted. *)
Module Mapper.

Abbreviation catalog := (gmap string (gmap string (list Document))).

(** Modelled from the spec: [createDatabase(name)] of the storage mapper
    issues schema creation and is idempotent, a schema that already exists
    is success. *)
Definition createDatabase (name : string) (cat : catalog) : option error * catalog :=
  match cat !! name with
  | Some _ => (None, cat)
  | None => (None, <[name := ∅]> cat)
  end.

(** Modelled from the spec: [dropDatabase(name)] of the storage mapper, which
    stands for [Pool.DropDatabase], is a cascading schema drop and returns the
    distinguished not-found error when the schema is absent. *)
Definition dropDatabase (name : string) (cat : catalog) : option error * catalog :=
  match cat !! name with
  | Some _ => (None, delete name cat)
  | None => (Some ErrTableNotExist, cat)
  end.

(** Modelled from the spec: [createCollection(db, name)] of the storage
    mapper is table creation and fails with the distinguished already-exists
    error if the table is present.  The spec leaves open what happens when
    the database is absent; not-found is returned here. *)
Definition createCollection (db name : string) (cat : catalog) : option error * catalog :=
  match cat !! db with
  | None => (Some ErrTableNotExist, cat)
  | Some tables =>
      match tables !! name with
      | Some _ => (Some ErrAlreadyExist, cat)
      | None => (None, <[db := <[name := nil]> tables]> cat)
      end
  end.

(** Modelled from the spec: [dropCollection(db, name)] of the storage mapper,
    which stands for [Pool.DropCollection], is a table drop with the same
    distinguished not-found error as database drop. *)
Definition dropCollection (db name : string) (cat : catalog) : option error * catalog :=
  match cat !! db with
  | None => (Some ErrTableNotExist, cat)
  | Some tables =>
      match tables !! name with
      | Some _ => (None, <[db := delete name tables]> cat)
      | None => (Some ErrTableNotExist, cat)
      end
  end.

(** The identifier field of a document, the relational primary key. *)
Definition identifier (d : Document) : option value := lookupField "_id" d.

Definition sameIdentifier (id : value) (d : Document) : bool :=
  match identifier d with
  | Some id' => value_eqb id id'
  | None => false
  end.

(** Modelled from the spec: insert of the storage mapper appends a row; the
    uniqueness constraint on the identifier field rejects a document whose
    identifier is already stored, and a document needs an identifier to be
    stored. *)
Definition insert (db name : string) (d : Document) (cat : catalog) : option error * catalog :=
  match cat !! db with
  | None => (Some ErrTableNotExist, cat)
  | Some tables =>
      match tables !! name with
      | None => (Some ErrTableNotExist, cat)
      | Some rows =>
          match identifier d with
          | None => (Some (ErrNew "document has no identifier"), cat)
          | Some id =>
              if existsb (sameIdentifier id) rows
              then (Some (ErrNew "duplicate identifier"), cat)
              else (None, <[db := <[name := (rows ++ d :: nil)%list]> tables]> cat)
          end
      end
  end.

(** A filter is a document; a row matches when it has every field of the
    filter with an equal value, so the empty filter matches every row. *)
Definition matches (filter d : Document) : bool :=
  forallb (fun kv => match lookupField (fst kv) d with
                     | Some v => value_eqb (snd kv) v
                     | None => false
                     end) filter.

(** Modelled from the spec: a query of the storage mapper returns the rows
    that match the filter.  The spec asks for one fixed ordering policy,
    insertion order or unspecified; the model returns the rows in insertion
    order. *)
Definition find (db name : string) (filter : Document) (cat : catalog)
  : error + list Document :=
  match cat !! db with
  | None => inl ErrTableNotExist
  | Some tables =>
      match tables !! name with
      | None => inl ErrTableNotExist
      | Some rows => inr (List.filter (matches filter) rows)
      end
  end.

(** Inserting documents one after the other, as a test does with
    [InsertOne] in a loop, stopping at the first error. *)
Fixpoint insertAll (db name : string) (docs : list Document) (cat : catalog)
  : option error * catalog :=
  match docs with
  | nil => (None, cat)
  | d :: docs' =>
      match insert db name d cat with
      | (None, cat') => insertAll db name docs' cat'
      | (Some e, cat') => (Some e, cat')
      end
  end.

(** Five documents with identifiers of their own, one per scalar kind. *)
Definition fiveDocuments : list Document :=
  (("_id", VString "double") :: ("v", VDouble 4631166901565532406) :: nil)
  :: (("_id", VString "string") :: ("v", VString "foo") :: nil)
  :: (("_id", VString "bool") :: ("v", VBool true) :: nil)
  :: (("_id", VString "int32") :: ("v", VInt32 42) :: nil)
  :: (("_id", VString "null") :: ("v", VNull) :: nil)
  :: nil.

(** The collection [name] of database [db], if the catalog has it. *)
Definition lookupCollection (db name : string) (cat : catalog) : option (list Document) :=
  match cat !! db with
  | Some tables => tables !! name
  | None => None
  end.

(** The rows of a collection; a collection that does not exist has none. *)
Definition rowsOf (db name : string) (cat : catalog) : list Document :=
  default nil (lookupCollection db name cat).

(** Modelled from the spec: [collection.Drop] as a client issues it, which is
    not among the sources.  It is the drop of the collection under the
    idempotent-operation policy of section 7: the distinguished not-found
    signal counts as success. *)
Definition Drop (db name : string) (cat : catalog) : option error * catalog :=
  let (err, cat') := dropCollection db name cat in
  (ignoreTableNotExist err, cat').

(** Modelled from the spec: [collection.InsertOne] as a client issues it,
    which is not among the sources.  A namespace is created by explicit or
    implicit creation commands (section 3): the insert first creates the
    database, which is idempotent, and the collection, where an
    already-exists signal counts as success, and then appends the row. *)
Definition InsertOne (db name : string) (d : Document) (cat : catalog)
  : option error * catalog :=
  let (_, cat1) := createDatabase db cat in
  let (err, cat2) := createCollection db name cat1 in
  match err with
  | None => insert db name d cat2
  | Some e =>
      if error_eqb e ErrAlreadyExist then insert db name d cat2
      else (Some e, cat2)
  end.

(** The mapper as the pool that [Schema] and [Table] call. *)
#[global] Instance catalog_Pgdb : Pgdb catalog := {|
  DropDatabase := dropDatabase;
  CreateDatabase := createDatabase;
  DropCollection := dropCollection;
  CreateCollection := createCollection
|}.

End Mapper.

(** ** [TestEnvData] *)

(** The inner loop of [TestEnvData]: each document of a provider is inserted
    into [test.values] and the test stops at the first error. *)
Fixpoint insertDocs (docs : list Document) : M (TB * Mapper.catalog) unit :=
  match docs with
  | nil => mret tt
  | doc :: docs' =>
      err ← onPool (Mapper.InsertOne "test" "values" doc) ;
      onTB (require.NoError err) ;;
      insertDocs docs'
  end.

(** The outer loop of [TestEnvData], over the providers. *)
Fixpoint insertProviders (providers : list (list Document))
  : M (TB * Mapper.catalog) unit :=
  match providers with
  | nil => mret tt
  | docs :: providers' => insertDocs docs ;; insertProviders providers'
  end.

(** [TestEnvData] of [integration/tigris], run against the storage mapper:
    it drops the collection [values] of the database [test] and inserts the
    documents of its one provider, [shareddata.FixedScalars], whose documents
    are not among the sources and are the argument here.  [t.Parallel] and
    the connection set up by [integration.SetupWithOpts] are left out. *)
Definition TestEnvData (FixedScalars : list Document) : M (TB * Mapper.catalog) unit :=
  err ← onPool (Mapper.Drop "test" "values") ;
  onTB (require.NoError err) ;;
  let providers := FixedScalars :: nil in
  insertProviders providers.

(** ** Observing a helper's run *)

(** An error is surfaced by a helper: the test is stopped as failed and the
    error is reported in its log. *)
Definition surfaced {P A} (e : error) (r : outcome A * (TB * P)) : Prop :=
  fst r = Goexit
  /\ tb_failed (fst (snd r)) = true
  /\ In (UnexpectedError e) (tb_log (fst (snd r))).

(** The error a pool gives when it wraps the sentinel on its way up. *)
Definition wrappedNotExist : error := ErrWrap "pgdb.DropDatabase" ErrTableNotExist.

Section Observations.
Context `{Strings.Unicode} {P : Type} `{Pgdb P}.

(** The test's state once [Schema] has logged the schema's name. *)
Definition schemaLogged (tb : TB) : TB :=
  addLog (Logged "Using schema %q." (specName (tb_name tb) :: nil)) tb.

Definition tableLogged (tb : TB) : TB :=
  addLog (Logged "Using table %q." (specName (tb_name tb) :: nil)) tb.

(** A failed [require.NoError] on the test's state [tb]. *)
Definition failedWith (e : error) (tb : TB) : TB :=
  setFailed (setFailed (addLog (UnexpectedError e) tb)).

(** The rest of [Schema] after the drop-if-exists step has passed: the
    schema is created and the cleanup registered. *)
Definition SchemaCreate (schema : string) (tb : TB) (p1 : P) : outcome string * (TB * P) :=
  let (err2, p2) := CreateDatabase schema p1 in
  match err2 with
  | Some e => (Goexit, (failedWith e tb, p2))
  | None => (Returned schema, (addCleanup (cleanupSchema schema) tb, p2))
  end.

(** The rest of [Table] after the drop-if-exists step has passed. *)
Definition TableCreate (db table : string) (tb : TB) (p1 : P) : outcome string * (TB * P) :=
  let (err2, p2) := CreateCollection db table p1 in
  match err2 with
  | Some e => (Goexit, (failedWith e tb, p2))
  | None => (Returned table, (tb, p2))
  end.

End Observations.

(** ** The binary document codec *)

(** Modelled from the spec: the document codec of sections 4.2 and 6, which
    is in packages [bson] and [wire] and not among the sources.  The encoding
    is the standard binary document format the spec names: a document is a
    4-byte little-endian length (counting itself and the final zero byte),
    its fields, and a zero byte; a field is a type tag, its null-terminated
    name and its value; integers and doubles are little-endian; a string and
    a binary carry a 4-byte length.  Type tags and value layouts are those of
    that format.  Decoding checks the embedded lengths, the type tags and the
    string terminators and gives [None] on any violation. *)
Module Codec.

Local Open Scope list_scope.

(** A name or a regex part followed by its terminator. *)
Definition cstring (s : string) : list byte :=
  list_byte_of_string s ++ x00 :: nil.

(** The decimal key of an array item. *)
Definition indexKey (i : nat) : string := NilEmpty.string_of_uint (Nat.to_uint i).

Definition tagOf (v : value) : byte :=
  match v with
  | VDouble _ => x01
  | VString _ => x02
  | VDocument _ => x03
  | VArray _ => x04
  | VBinary _ _ => x05
  | VObjectID _ => x07
  | VBool _ => x08
  | VDateTime _ => x09
  | VNull => x0a
  | VRegex _ _ => x0b
  | VInt32 _ => x10
  | VTimestamp _ => x11
  | VInt64 _ => x12
  | VDecimal128 _ => x13
  end.

(** A length-prefixed list of fields with its terminator. *)
Definition framed (body : list byte) : list byte :=
  le_split 4 (Z.of_nat (4 + length body + 1)) ++ body ++ x00 :: nil.

(** Modelled from the spec: the encoder of package [bson]; the bytes of a
    value, without its tag and name. *)
Fixpoint encodeValue (v : value) : list byte :=
  let fix encodeFields (fields : list (string * value)) : list byte :=
    match fields with
    | nil => nil
    | (k, x) :: fields' =>
        (tagOf x :: cstring k ++ encodeValue x) ++ encodeFields fields'
    end in
  let fix encodeItems (i : nat) (items : list value) : list byte :=
    match items with
    | nil => nil
    | x :: items' =>
        (tagOf x :: cstring (indexKey i) ++ encodeValue x) ++ encodeItems (S i) items'
    end in
  match v with
  | VDouble bits => le_split 8 bits
  | VString s =>
      le_split 4 (Z.of_nat (String.length s + 1)) ++ list_byte_of_string s ++ x00 :: nil
  | VDocument fields => framed (encodeFields fields)
  | VArray items => framed (encodeItems 0 items)
  | VBinary subtype data =>
      le_split 4 (Z.of_nat (length data)) ++ subtype :: data
  | VObjectID id => id
  | VBool b => (if b then x01 else x00) :: nil
  | VDateTime millis => le_split 8 millis
  | VNull => nil
  | VRegex pattern options => cstring pattern ++ cstring options
  | VInt32 n => le_split 4 n
  | VTimestamp t => le_split 8 t
  | VInt64 n => le_split 8 n
  | VDecimal128 bits => le_split 16 bits
  end.

(** One field: tag, name, value. *)
Definition encodeElement (k : string) (v : value) : list byte :=
  tagOf v :: cstring k ++ encodeValue v.

Fixpoint encodeFields (fields : list (string * value)) : list byte :=
  match fields with
  | nil => nil
  | (k, x) :: fields' => encodeElement k x ++ encodeFields fields'
  end.

Fixpoint encodeItems (i : nat) (items : list value) : list byte :=
  match items with
  | nil => nil
  | x :: items' => encodeElement (indexKey i) x ++ encodeItems (S i) items'
  end.

(** Modelled from the spec: the encoding of a document. *)
Definition encode (d : Document) : list byte := encodeValue (VDocument d).

(** *** Decoding *)

(** The value of a [w]-bit two's complement pattern. *)
Definition signed (w : Z) (z : Z) : Z :=
  (if z <? 2 ^ (w - 1) then z else z - 2 ^ w)%Z.

(** The next [n] bytes. *)
Definition readBytes (n : nat) (bs : list byte) : option (list byte * list byte) :=
  if (n <=? length bs)%nat then Some (firstn n bs, skipn n bs) else None.

(** A little-endian unsigned integer of [n] bytes. *)
Definition readUint (n : nat) (bs : list byte) : option (Z * list byte) :=
  match readBytes n bs with
  | Some (b, rest) => Some (le_combine b, rest)
  | None => None
  end.

(** A little-endian signed integer of [n] bytes. *)
Definition readInt (n : nat) (bs : list byte) : option (Z * list byte) :=
  match readUint n bs with
  | Some (z, rest) => Some (signed (8 * Z.of_nat n) z, rest)
  | None => None
  end.

(** The bytes up to the first zero byte, which is consumed. *)
Fixpoint readCString (bs : list byte) : option (string * list byte) :=
  match bs with
  | nil => None
  | b :: bs' =>
      if Byte.eqb b x00 then Some (EmptyString, bs')
      else match readCString bs' with
           | Some (s, rest) => Some (String (ascii_of_byte b) s, rest)
           | None => None
           end
  end.

(** A length-prefixed list of fields: the length read first must be the
    number of bytes taken, terminator included. *)
Definition readFramed {A} (readBody : list byte -> option (A * list byte))
    (bs : list byte) : option (A * list byte) :=
  match readInt 4 bs with
  | Some (n, body) =>
      match readBody body with
      | Some (a, rest) =>
          if (n =? Z.of_nat (length bs - length rest))%Z then Some (a, rest) else None
      | None => None
      end
  | None => None
  end.

(** Modelled from the spec: the decoder of package [bson]; the value of a
    field by its type tag, where [readFields] reads the fields of a nested
    document or array. *)
Definition decodeTagged
    (readFields : list byte -> option (list (string * value) * list byte))
    (tag : byte) (bs : list byte) : option (value * list byte) :=
  match byte.unsigned tag with
  | 1 => match readUint 8 bs with
         | Some (bits, rest) => Some (VDouble bits, rest)
         | None => None
         end
  | 2 => match readInt 4 bs with
         | Some (n, body) =>
             if (1 <=? n)%Z then
               match readBytes (Z.to_nat n - 1) body with
               | Some (s, b :: rest) =>
                   if Byte.eqb b x00
                   then Some (VString (string_of_list_byte s), rest)
                   else None
               | _ => None
               end
             else None
         | None => None
         end
  | 3 => match readFramed readFields bs with
         | Some (fields, rest) => Some (VDocument fields, rest)
         | None => None
         end
  | 4 => match readFramed readFields bs with
         | Some (fields, rest) => Some (VArray (map snd fields), rest)
         | None => None
         end
  | 5 => match readInt 4 bs with
         | Some (n, subtype :: body) =>
             if (0 <=? n)%Z then
               match readBytes (Z.to_nat n) body with
               | Some (data, rest) => Some (VBinary subtype data, rest)
               | None => None
               end
             else None
         | _ => None
         end
  | 7 => match readBytes 12 bs with
         | Some (id, rest) => Some (VObjectID id, rest)
         | None => None
         end
  | 8 => match bs with
         | b :: rest =>
             if Byte.eqb b x00 then Some (VBool false, rest)
             else if Byte.eqb b x01 then Some (VBool true, rest)
             else None
         | nil => None
         end
  | 9 => match readInt 8 bs with
         | Some (millis, rest) => Some (VDateTime millis, rest)
         | None => None
         end
  | 10 => Some (VNull, bs)
  | 11 => match readCString bs with
          | Some (pattern, bs') =>
              match readCString bs' with
              | Some (options, rest) => Some (VRegex pattern options, rest)
              | None => None
              end
          | None => None
          end
  | 16 => match readInt 4 bs with
          | Some (n, rest) => Some (VInt32 n, rest)
          | None => None
          end
  | 17 => match readUint 8 bs with
          | Some (t, rest) => Some (VTimestamp t, rest)
          | None => None
          end
  | 18 => match readInt 8 bs with
          | Some (n, rest) => Some (VInt64 n, rest)
          | None => None
          end
  | 19 => match readUint 16 bs with
          | Some (bits, rest) => Some (VDecimal128 bits, rest)
          | None => None
          end
  | _ => None
  end%Z.

(** Modelled from the spec: [decodeValue] reads the value of a field of the
    given tag, and [decodeFields] reads fields up to the terminating zero
    byte.  Each nested value and each further field uses up one unit of
    [fuel]. *)
Fixpoint decodeValue (fuel : nat) (tag : byte) (bs : list byte) {struct fuel}
  : option (value * list byte) :=
  match fuel with
  | O => None
  | S fuel' => decodeTagged (decodeFields fuel') tag bs
  end
with decodeFields (fuel : nat) (bs : list byte) {struct fuel}
  : option (list (string * value) * list byte) :=
  match fuel with
  | O => None
  | S fuel' =>
      match bs with
      | nil => None
      | tag :: bs1 =>
          if Byte.eqb tag x00 then Some (nil, bs1)
          else
            match readCString bs1 with
            | Some (k, bs2) =>
                match decodeValue fuel' tag bs2 with
                | Some (v, bs3) =>
                    match decodeFields fuel' bs3 with
                    | Some (fields, rest) => Some ((k, v) :: fields, rest)
                    | None => None
                    end
                | None => None
                end
            | None => None
            end
      end
  end.

(** The error of the spec's taxonomy for bytes that are not a document. *)
Inductive DecodeError : Type := InvalidEncoding.

(** Modelled from the spec: the decoding of a document; the bytes must be
    used up.  The fuel is the number of bytes of the input. *)
Definition decode (bs : list byte) : DecodeError + Document :=
  match readFramed (decodeFields (length bs)) bs with
  | Some (d, nil) => inr d
  | _ => inl InvalidEncoding
  end.

(** *** Valid documents *)

(** A name has no zero byte. *)
Definition noNUL (s : string) : bool :=
  forallb (fun b => negb (Byte.eqb b x00)) (list_byte_of_string s).

Definition inRange (lo hi z : Z) : bool := ((lo <=? z) && (z <? hi))%Z.

(** Modelled from the spec: a valid value is one the format can hold, with
    numbers within their width, names and regex parts without a zero byte, an
    identifier of 12 bytes, and lengths that fit the signed 32-bit length
    fields. *)
Fixpoint valid (v : value) : bool :=
  match v with
  | VDouble bits => inRange 0 (2 ^ 64) bits
  | VString s => inRange 0 (2 ^ 31) (Z.of_nat (String.length s + 1))
  | VDocument fields =>
      forallb (fun kv => noNUL (fst kv) && valid (snd kv)) fields
      && inRange 0 (2 ^ 31) (Z.of_nat (length (encodeValue v)))
  | VArray items =>
      forallb valid items
      && inRange 0 (2 ^ 31) (Z.of_nat (length (encodeValue v)))
  | VBinary _ data => inRange 0 (2 ^ 31) (Z.of_nat (length data))
  | VObjectID id => (length id =? 12)%nat
  | VBool _ => true
  | VDateTime millis => inRange (- 2 ^ 63) (2 ^ 63) millis
  | VNull => true
  | VRegex pattern options => noNUL pattern && noNUL options
  | VInt32 n => inRange (- 2 ^ 31) (2 ^ 31) n
  | VTimestamp t => inRange 0 (2 ^ 64) t
  | VInt64 n => inRange (- 2 ^ 63) (2 ^ 63) n
  | VDecimal128 bits => inRange 0 (2 ^ 128) bits
  end.

Definition validDocument (d : Document) : bool := valid (VDocument d).

(** The fields an array is written as: its items under their decimal
    indices. *)
Fixpoint keyed (i : nat) (items : list value) : list (string * value) :=
  match items with
  | nil => nil
  | x :: items' => (indexKey i, x) :: keyed (S i) items'
  end.

(** A value is read back from its encoding, whatever follows it, by a
    decoder with fuel for each of its bytes. *)
Definition roundTrips (v : value) : Prop :=
  forall (fuel : nat) (rest : list byte),
    valid v = true ->
    (length (encodeValue v) < fuel)%nat ->
    decodeValue fuel (tagOf v) (encodeValue v ++ rest) = Some (v, rest).


(** A document with a field of every kind. *)
Definition everyKind : Document :=
  ("_id", VObjectID (x62 :: x8a :: x1f :: x00 :: x11 :: x22 :: x33 :: x44 ::
                     x55 :: x66 :: x77 :: x88 :: nil))
  :: ("double", VDouble 4631166901565532406)
  :: ("string", VString "foo")
  :: ("document", VDocument (("nested", VInt32 (-1)) :: nil))
  :: ("array", VArray (VInt32 1 :: VString "two" :: VNull :: nil))
  :: ("binary", VBinary x80 (x2a :: x00 :: x0d :: nil))
  :: ("bool", VBool true)
  :: ("datetime", VDateTime 1627378542123)
  :: ("null", VNull)
  :: ("regex", VRegex "^fo+$" "i")
  :: ("int32", VInt32 (-2147483648))
  :: ("timestamp", VTimestamp 18446744073709551615)
  :: ("int64", VInt64 9223372036854775807)
  :: ("decimal", VDecimal128 5)
  :: nil.

End Codec.

(** ** Further observations of the helpers *)

(** A byte an identifier is free of once "/" and " " are replaced. *)
Definition isSeparator (c : ascii) : bool :=
  Ascii.eqb c "/" || Ascii.eqb c " ".

(** One of the three bytes that end up as "-" in an identifier. *)
Definition isDashLike (c : ascii) : bool :=
  Ascii.eqb c "/" || Ascii.eqb c " " || Ascii.eqb c "-".

(** Two bytes an identifier does not tell apart: the same ASCII letter in
    either case (or the same byte), or two of "/", " " and "-". *)
Definition sameIdentifierByte (c d : ascii) : bool :=
  Strings.sameLetter c d || (isDashLike c && isDashLike d).

(** Two names of the same length whose bytes an identifier does not tell
    apart. *)
Fixpoint sameIdentifierName (a b : string) : bool :=
  match a, b with
  | EmptyString, EmptyString => true
  | String c a', String d b' => sameIdentifierByte c d && sameIdentifierName a' b'
  | _, _ => false
  end.

(** [tb'] is a later state of the test whose state was [tb]: the same test
    under the same flags, where a failure or a skip once recorded stays, the
    log has only grown at its end and the cleanup functions registered before
    are all still there, under the ones registered since. *)
Definition laterState (tb tb' : TB) : Prop :=
  tb_name tb' = tb_name tb
  /\ tb_short tb' = tb_short tb
  /\ (tb_failed tb = true -> tb_failed tb' = true)
  /\ (tb_skipped tb = true -> tb_skipped tb' = true)
  /\ (exists more, tb_log tb' = (tb_log tb ++ more)%list)
  /\ (exists more, tb_cleanups tb' = (more ++ tb_cleanups tb)%list).

(** A call on the test's state that only ever leads to a later state. *)
Definition onlyAdds {A} (m : M TB A) : Prop :=
  forall tb, laterState tb (snd (m tb)).

(** The same for a helper that also runs on the backend. *)
Definition onlyAddsW {P A} (m : M (TB * P) A) : Prop :=
  forall tb p, laterState tb (fst (snd (m (tb, p)))).

(** ** A pool that records its calls *)

(** A pool [P] together with the calls made on it so far, in order. *)
Definition Traced (P : Type) : Type := (list call * P)%type.

(** The call [c] is recorded and passed on to the pool. *)
Definition recorded {P} (c : call) (f : P -> option error * P) (s : Traced P)
  : option error * Traced P :=
  let (err, p') := f (snd s) in (err, ((fst s ++ c :: nil)%list, p')).

#[export] Instance Traced_Pgdb {P : Type} `{Pgdb P} : Pgdb (Traced P) := {|
  DropDatabase db := recorded (callDropDatabase db) (DropDatabase db);
  CreateDatabase db := recorded (callCreateDatabase db) (CreateDatabase db);
  DropCollection db table :=
    recorded (callDropCollection db table) (DropCollection db table);
  CreateCollection db table :=
    recorded (callCreateCollection db table) (CreateCollection db table)
|}.

(** Whether the drop-if-exists step lets a helper go on after a drop that
    returned [err]. *)
Definition dropPasses (err : option error) : bool :=
  match ignoreTableNotExist err with
  | None => true
  | Some _ => false
  end.

Section Calls.
Context `{Strings.Unicode} {P : Type} `{Pgdb P}.

(** The calls [Schema] makes, by what the pool answers. *)
Definition schemaCalls (tb : TB) (p : P) : list call :=
  let schema := specName (tb_name tb) in
  if (String.length schema <? 64)%nat then
    callDropDatabase schema
    :: (if dropPasses (fst (DropDatabase schema p))
        then callCreateDatabase schema :: nil else nil)
  else nil.

(** The calls [Table] makes, by what the pool answers. *)
Definition tableCalls (db : string) (tb : TB) (p : P) : list call :=
  let table := specName (tb_name tb) in
  callDropCollection db table
  :: (if dropPasses (fst (DropCollection db table p))
      then callCreateCollection db table :: nil else nil).

End Calls.

(** A log entry that reports a failure. *)
Definition isFailureReport (e : logEntry) : bool :=
  match e with
  | NotLess _ _ => true
  | UnexpectedError _ => true
  | Logged _ _ => false
  end.

(** A run that stopped the test did so with a report: the test is marked
    failed and the last line of its log reports the failure. *)
Definition stoppedWithReport {S A} (tbOf : S -> TB) (r : outcome A * S) : Prop :=
  fst r = Goexit
  /\ tb_failed (tbOf (snd r)) = true
  /\ exists e, last (tb_log (tbOf (snd r))) = Some e /\ isFailureReport e = true.

(** What a run shows of the test's failure mark: if it returned, the mark is
    as it was, and if it stopped the test, it did so with a report. *)
Definition reportsItsStops {S A} (tbOf : S -> TB) (tb : TB) (r : outcome A * S) : Prop :=
  (forall a, fst r = Returned a -> tb_failed (tbOf (snd r)) = tb_failed tb)
  /\ (fst r = Goexit -> stoppedWithReport tbOf r).

Section Setup.
Context `{Strings.Unicode} {P : Type} `{Pgdb P}.

(** A test's usual first steps: a schema for the test, and a table in it. *)
Definition SchemaAndTable : M (TB * P) (string * string) :=
  schema ← Schema ;
  table ← Table schema ;
  mret (schema, table).

End Setup.

(** ** [Pool] *)

(** The constructor of a pool, [pgdb.NewPool(ctx, connString, logger, lazy)],
    which is in package [pgdb] and not among the sources, taken as given: it
    returns Go's [error] and the backend's next state, the state of the pool
    it has made when the error is nil.  The context and the logger are left
    out. *)
Class PgdbConnect (P : Type) : Type := {
  NewPool : string -> bool -> P -> option error * P
}.

(** The state of a test that [Pool] runs in.  [tb.Cleanup(pool.Close)] puts
    [pool.Close] among the test's cleanup functions; the closures of [Schema]
    are in [tb_cleanups], and each registered [pool.Close] is kept here with
    the number of cleanup functions registered before it, which is its place
    among them. *)
Record PoolTB : Type := mkPoolTB {
  ptb_tb : TB;
  ptb_closes : list nat
}.

(** A helper of the test's state alone, run in the state [Pool] runs in. *)
Definition onPoolTB {P A} (m : M TB A) : M (PoolTB * P) A := fun s =>
  let (r, tb') := m (ptb_tb (fst s)) in
  (r, (mkPoolTB tb' (ptb_closes (fst s)), snd s)).

(** A call on the backend, run in the state [Pool] runs in. *)
Definition onBackend {P A} (f : P -> A * P) : M (PoolTB * P) A := fun s =>
  let (a, p') := f (snd s) in (Returned a, (fst s, p')).

(** [tb.Cleanup(pool.Close)] *)
Definition CleanupClose {P} : M (PoolTB * P) unit := fun s =>
  let registered :=
    (length (tb_cleanups (ptb_tb (fst s))) + length (ptb_closes (fst s)))%nat in
  (Returned tt,
   (mkPoolTB (ptb_tb (fst s)) (registered :: ptb_closes (fst s)), snd s)).

(** [Pool] creates a new connection pool for testing.  The pool
    it returns is the backend's state after the call. *)
Definition Pool {P} `{PgdbConnect P} (opts : option PoolOpts) : M (PoolTB * P) unit :=
  onPoolTB testing.Helper ;;
  connString ← onPoolTB (PoolConnString opts) ;
  err ← onBackend (NewPool connString false) ;
  onPoolTB (require.NoError err) ;;
  CleanupClose ;;
  mret tt.

(** A backend that records the connection strings pools were asked for, each
    with its [lazy] flag, and refuses the ones in [refused]. *)
Record Connections : Type := mkConnections {
  refused : list string;
  asked : list (string * bool)
}.

#[export] Instance Connections_PgdbConnect : PgdbConnect Connections := {|
  NewPool cs lazy s :=
    (if existsb (String.eqb cs) (refused s)
     then Some (ErrNew "connection refused") else None,
     mkConnections (refused s) (asked s ++ (cs, lazy) :: nil)%list)
|}.

(** * Properties *)

Example ToLower_ascii :
  @Strings.ToLower Strings.ASCIIOnly "TestEnvData/Sub test" = "testenvdata/sub test".
Proof. reflexivity. Qed.

Example TableName_example :
  @TableName Strings.ASCIIOnly (newTB "TestEnvData/Sub test")
  = (Returned "testenvdata-sub-test", newTB "TestEnvData/Sub test").
Proof. reflexivity. Qed.

Example PoolConnString_example :
  PoolConnString (Some (mkPoolOpts true)) (newTB "TestX")
  = (Returned "postgres://readonly@127.0.0.1:5432/ferretdb?pool_min_conns=1", newTB "TestX").
Proof. reflexivity. Qed.

Example user_example :
  ConnString.user "postgres://readonly@127.0.0.1:5432/ferretdb?pool_min_conns=1" = Some "readonly"
  /\ ConnString.param "pool_min_conns" "postgres://readonly@127.0.0.1:5432/ferretdb?pool_min_conns=1" = Some "1".
Proof. split; reflexivity. Qed.

(** ** [PoolConnString] *)

Lemma PoolConnString_short (opts : option PoolOpts) (tb : TB) :
  tb_short tb = true ->
  PoolConnString opts tb
  = (Goexit, setSkipped (addLog (Logged "skipping in -short mode" nil) tb)).
Proof.
  intros Hs. unfold PoolConnString, mbind, M_bind, testing.Helper, testing.Short.
  cbn. rewrite Hs. reflexivity.
Qed.

Lemma PoolConnString_returns (opts : PoolOpts) (tb : TB) :
  tb_short tb = false ->
  PoolConnString (Some opts) tb = (Returned (connStringOf (roleUser opts)), tb).
Proof.
  intros Hs. unfold PoolConnString, mbind, M_bind, testing.Helper, testing.Short.
  cbn. rewrite Hs. cbn. destruct opts as [[|]]; reflexivity.
Qed.

Lemma PoolConnString_nil (tb : TB) :
  PoolConnString None tb = PoolConnString (Some newPoolOpts) tb.
Proof. reflexivity. Qed.

Lemma user_connStringOf_role (opts : PoolOpts) :
  ConnString.user (connStringOf (roleUser opts)) = Some (roleUser opts).
Proof. destruct opts as [[|]]; reflexivity. Qed.

Lemma param_connStringOf_role (opts : PoolOpts) :
  ConnString.param "pool_min_conns" (connStringOf (roleUser opts)) = Some "1".
Proof. destruct opts as [[|]]; reflexivity. Qed.

(** C6. For every options value, nil included, a connection string returned
    by [PoolConnString] has the user "readonly" exactly when [opts.ReadOnly]
    is true and the user "postgres" otherwise, and its [pool_min_conns]
    parameter is 1.  A string is returned, the test's state left as it was,
    unless the test binary runs with [-short], in which case the test is
    skipped. *)
Theorem PoolConnString_role_and_min_conns (opts : option PoolOpts) (tb : TB) :
  (forall cs tb', PoolConnString opts tb = (Returned cs, tb') ->
     cs = "postgres://" ++ (if readOnlyOf opts then "readonly" else "postgres")
            ++ "@127.0.0.1:5432/ferretdb?pool_min_conns=1"
     /\ (ConnString.user cs = Some "readonly" <-> readOnlyOf opts = true)
     /\ (ConnString.user cs = Some "postgres" <-> readOnlyOf opts = false)
     /\ ConnString.param "pool_min_conns" cs = Some "1")
  /\ (tb_short tb = false ->
      exists cs, PoolConnString opts tb = (Returned cs, tb))
  /\ (tb_short tb = true ->
      fst (PoolConnString opts tb) = Goexit
      /\ tb_skipped (snd (PoolConnString opts tb)) = true).
Proof.
  assert (Hopts : PoolConnString opts tb
                  = PoolConnString (Some (mkPoolOpts (readOnlyOf opts))) tb)
    by (destruct opts as [[ro]|]; reflexivity).
  rewrite Hopts. destruct (tb_short tb) eqn:Hs.
  - rewrite PoolConnString_short by exact Hs.
    split; [discriminate|]. split; [discriminate|]. intros _. split; reflexivity.
  - rewrite PoolConnString_returns by exact Hs.
    split; [|split; [intros _; eexists; reflexivity | discriminate]].
    intros cs tb' [= <- <-].
    rewrite user_connStringOf_role, param_connStringOf_role.
    destruct (readOnlyOf opts); cbn; repeat split; intros; congruence.
Qed.

Lemma PoolConnString_role_and_min_conns_witness :
  ConnString.user "postgres://readonly@127.0.0.1:5432/ferretdb?pool_min_conns=1"
  = Some "readonly"
  /\ exists cs,
       PoolConnString (Some (mkPoolOpts true)) (newTB "TestQuery")
       = (Returned cs, newTB "TestQuery").
Proof.
  destruct (PoolConnString_role_and_min_conns (Some (mkPoolOpts true)) (newTB "TestQuery"))
    as (Hcs & Hret & _).
  split.
  - apply (Hcs _ (newTB "TestQuery") eq_refl). reflexivity.
  - apply Hret. reflexivity.
Defined.

(** C10. A nil options pointer is treated exactly as the default options
    value: the call never panics, whatever the options and the test's state,
    it does on nil what it does on [new(PoolOpts)], and unless the test is
    skipped for [-short] it returns the connection string of the privileged
    user. *)
Theorem PoolConnString_nil_total (tb : TB) :
  PoolConnString None tb = PoolConnString (Some newPoolOpts) tb
  /\ (forall opts msg, fst (PoolConnString opts tb) <> Panic msg)
  /\ (tb_short tb = false ->
      PoolConnString None tb
      = (Returned "postgres://postgres@127.0.0.1:5432/ferretdb?pool_min_conns=1", tb)).
Proof.
  split; [apply PoolConnString_nil|]. split.
  - intros opts msg.
    assert (Hopts : PoolConnString opts tb
                    = PoolConnString (Some (default newPoolOpts opts)) tb)
      by (destruct opts; reflexivity).
    rewrite Hopts. destruct (tb_short tb) eqn:Hs.
    + rewrite PoolConnString_short by exact Hs. discriminate.
    + rewrite PoolConnString_returns by exact Hs. discriminate.
  - intros Hs. rewrite PoolConnString_nil, PoolConnString_returns by exact Hs.
    reflexivity.
Qed.

Lemma PoolConnString_nil_total_witness :
  PoolConnString None (newTB "TestQuery")
  = (Returned "postgres://postgres@127.0.0.1:5432/ferretdb?pool_min_conns=1", newTB "TestQuery").
Proof.
  apply (PoolConnString_nil_total (newTB "TestQuery")). reflexivity.
Defined.

(** ** The name transformation *)

Section NameFacts.
Context `{Strings.Unicode}.
Import Strings.

Lemma HasPrefix_byte (c x : ascii) (s : string) :
  HasPrefix (String x s) (String c EmptyString) = Ascii.eqb c x.
Proof. cbn. destruct s; apply andb_true_r. Qed.

(** Replacing one byte by another is a byte-wise map. *)
Lemma replaceFrom_byte (c d : ascii) (s : string) :
  replaceFrom (String c EmptyString) (String d EmptyString) 0 s
  = mapBytes (fun x => if Ascii.eqb c x then d else x) s.
Proof.
  induction s as [|x s IH]; [reflexivity|].
  cbn [replaceFrom mapBytes]. rewrite HasPrefix_byte.
  destruct (Ascii.eqb c x); cbn; rewrite IH; reflexivity.
Qed.

Lemma mapBytes_mapBytes (f g : ascii -> ascii) (s : string) :
  mapBytes g (mapBytes f s) = mapBytes (fun x => g (f x)) s.
Proof. induction s as [|x s IH]; cbn; [|rewrite IH]; reflexivity. Qed.

Lemma mapBytes_ext (f g : ascii -> ascii) (s : string) :
  (forall x, f x = g x) -> mapBytes f s = mapBytes g s.
Proof. intros E. induction s as [|x s IH]; cbn; [|rewrite IH, E]; reflexivity. Qed.

Lemma mapBytes_length (f : ascii -> ascii) (s : string) :
  String.length (mapBytes f s) = String.length s.
Proof. induction s as [|x s IH]; cbn; [|rewrite IH]; reflexivity. Qed.

(** The two [ReplaceAll] calls of the source turn "/" and " " into "-" and
    leave every other byte. *)
Lemma ReplaceAll_slash_space (s : string) :
  ReplaceAll (ReplaceAll s "/" "-") " " "-" = mapBytes dashByte s.
Proof.
  unfold ReplaceAll. cbn [String.eqb Ascii.eqb Bool.eqb].
  rewrite !replaceFrom_byte, mapBytes_mapBytes.
  apply mapBytes_ext. intros x. unfold dashByte.
  rewrite (Ascii.eqb_sym x "/"), (Ascii.eqb_sym x " ").
  destruct (Ascii.eqb "/" x) eqn:E1; cbn; [reflexivity|].
  reflexivity.
Qed.

(** What [TableName] does, in one equation. *)
Lemma TableName_run (tb : TB) :
  TableName tb = (Returned (specName (tb_name tb)), tb).
Proof.
  unfold TableName, specName, mbind, M_bind, testing.Helper, testing.Name.
  cbv beta iota delta [mret M_ret]. rewrite ReplaceAll_slash_space. reflexivity.
Qed.

(** What [SchemaName] does, in one equation. *)
Lemma SchemaName_run (tb : TB) :
  SchemaName tb
  = if (String.length (specName (tb_name tb)) <? 64)%nat
    then (Returned (specName (tb_name tb)), tb)
    else (Goexit,
          setFailed (setFailed
            (addLog (NotLess (String.length (specName (tb_name tb))) 64) tb))).
Proof.
  unfold SchemaName, specName, mbind, M_bind, testing.Helper, testing.Name.
  cbv beta iota delta [mret M_ret]. rewrite ReplaceAll_slash_space.
  unfold require.Less.
  destruct (_ <? 64)%nat; reflexivity.
Qed.

End NameFacts.

Section NameProperties.
Context `{Strings.Unicode}.
Import Strings.

(** C9. Whenever [SchemaName]'s length assertion passes, [SchemaName] and
    [TableName] return the identical string, which is the name lowercased
    with every "/" and every " " replaced by "-", and leave the test in the
    same state; [TableName] returns that string for every name, and
    [SchemaName] differs from it only where the length check fails, where it
    stops the test. *)
Theorem SchemaName_TableName_same (tb : TB) :
  (forall n tb', SchemaName tb = (Returned n, tb') ->
     TableName tb = (Returned n, tb') /\ n = specName (tb_name tb))
  /\ TableName tb = (Returned (specName (tb_name tb)), tb)
  /\ ((String.length (specName (tb_name tb)) <? 64)%nat = true ->
      SchemaName tb = TableName tb)
  /\ ((String.length (specName (tb_name tb)) <? 64)%nat = false ->
      fst (SchemaName tb) = Goexit /\ tb_failed (snd (SchemaName tb)) = true).
Proof.
  rewrite TableName_run, SchemaName_run.
  destruct (_ <? 64)%nat eqn:E; repeat split; try discriminate.
  - inversion H0; subst; reflexivity.
  - inversion H0; subst; reflexivity.
Qed.

(** C7. The identifier depends on the test's name only: two runs on tests of
    the same name, whatever else differs in their state, have the same
    outcome with the same identifier, for [SchemaName] and for [TableName];
    and a second call made after a first one has returned returns the same
    identifier again. *)
Theorem names_deterministic (tb1 tb2 : TB) :
  tb_name tb1 = tb_name tb2 ->
  fst (SchemaName tb1) = fst (SchemaName tb2)
  /\ fst (TableName tb1) = fst (TableName tb2)
  /\ (forall n tb', SchemaName tb1 = (Returned n, tb') ->
        SchemaName tb' = (Returned n, tb'))
  /\ (forall n tb', TableName tb1 = (Returned n, tb') ->
        TableName tb' = (Returned n, tb')).
Proof.
  intros Hn. rewrite !TableName_run, !SchemaName_run, <- Hn.
  repeat split.
  - destruct (_ <? 64)%nat; reflexivity.
  - intros n tb'. rewrite SchemaName_run.
    destruct (_ <? 64)%nat eqn:E; [|discriminate].
    intros [= <- <-]. rewrite E. reflexivity.
  - intros n tb' [= <- <-]. apply TableName_run.
Qed.

End NameProperties.

Lemma SchemaName_TableName_same_witness :
  @SchemaName Strings.ASCIIOnly (newTB "TestEnvData/Fixed Scalars")
  = @TableName Strings.ASCIIOnly (newTB "TestEnvData/Fixed Scalars").
Proof.
  apply (@SchemaName_TableName_same Strings.ASCIIOnly (newTB "TestEnvData/Fixed Scalars")).
  reflexivity.
Defined.

Lemma names_deterministic_witness :
  fst (@SchemaName Strings.ASCIIOnly (newTB "TestEnvData"))
  = fst (@SchemaName Strings.ASCIIOnly (addLog (Logged "started" nil) (newTB "TestEnvData")))
  /\ fst (@TableName Strings.ASCIIOnly (newTB "TestEnvData"))
     = fst (@TableName Strings.ASCIIOnly (addLog (Logged "started" nil) (newTB "TestEnvData"))).
Proof.
  destruct (@names_deterministic Strings.ASCIIOnly (newTB "TestEnvData")
              (addLog (Logged "started" nil) (newTB "TestEnvData")) eq_refl)
    as (Hs & Ht & _).
  split; [exact Hs | exact Ht].
Defined.

(** ** Letter case and length *)

Section CaseFacts.
Context `{Strings.Unicode}.
Import Strings.

Lemma isUpperByte_bounds (c : ascii) :
  isUpperByte c = true -> 65 <= nat_of_ascii c <= 90.
Proof.
  unfold isUpperByte. rewrite andb_true_iff, !Nat.leb_le. tauto.
Qed.

Lemma nat_of_lowerByte_upper (c : ascii) :
  isUpperByte c = true -> nat_of_ascii (lowerByte c) = nat_of_ascii c + 32.
Proof.
  intros Hu. unfold lowerByte. rewrite Hu.
  apply nat_ascii_embedding. apply isUpperByte_bounds in Hu. lia.
Qed.

Lemma lowerByte_not_upper (c : ascii) :
  isUpperByte c = false -> lowerByte c = c.
Proof. intros Hu. unfold lowerByte. rewrite Hu. reflexivity. Qed.

Lemma lowerByte_isASCII (c : ascii) :
  isASCIIByte (lowerByte c) = isASCIIByte c.
Proof.
  destruct (isUpperByte c) eqn:Hu.
  - unfold isASCIIByte. rewrite nat_of_lowerByte_upper by exact Hu.
    apply isUpperByte_bounds in Hu.
    destruct (Nat.ltb_spec (nat_of_ascii c + 32) 128),
             (Nat.ltb_spec (nat_of_ascii c) 128); try reflexivity; lia.
  - rewrite lowerByte_not_upper by exact Hu. reflexivity.
Qed.

Lemma sameLetter_isASCII (c d : ascii) :
  sameLetter c d = true -> isASCIIByte c = isASCIIByte d.
Proof.
  unfold sameLetter. intros E. apply Ascii.eqb_eq in E.
  rewrite <- (lowerByte_isASCII c), <- (lowerByte_isASCII d), E. reflexivity.
Qed.

Lemma equalFold_isASCII (a b : string) :
  equalFoldASCII a b = true -> isASCII a = isASCII b.
Proof.
  unfold isASCII.
  revert b. induction a as [|c a IH]; intros [|d b]; cbn [equalFoldASCII allBytes];
    try discriminate; [reflexivity|].
  rewrite andb_true_iff. intros [Hc Hab].
  rewrite (sameLetter_isASCII c d Hc), (IH b Hab). reflexivity.
Qed.

Lemma equalFold_mapBytes (a b : string) :
  equalFoldASCII a b = true -> mapBytes lowerByte a = mapBytes lowerByte b.
Proof.
  revert b. induction a as [|c a IH]; intros [|d b]; cbn; try discriminate;
    [reflexivity|].
  rewrite andb_true_iff. intros [Hc Hab]. apply Ascii.eqb_eq in Hc.
  rewrite Hc, (IH b Hab). reflexivity.
Qed.

Lemma mapBytes_lowerByte_no_upper (s : string) :
  hasUpper s = false -> mapBytes lowerByte s = s.
Proof.
  unfold hasUpper. induction s as [|c s IH]; cbn; [reflexivity|].
  rewrite orb_false_iff. intros [Hc Hs].
  rewrite (lowerByte_not_upper c Hc), (IH Hs). reflexivity.
Qed.

(** On an ASCII-only string [ToLower] lowers byte by byte. *)
Lemma ToLower_ascii_bytes (s : string) :
  isASCII s = true -> ToLower s = mapBytes lowerByte s.
Proof.
  intros Ha. unfold ToLower. rewrite Ha.
  destruct (hasUpper s) eqn:Hu; [reflexivity|].
  symmetry. apply mapBytes_lowerByte_no_upper. exact Hu.
Qed.

Lemma ToLower_equalFold (a b : string) :
  isASCII a = true -> equalFoldASCII a b = true -> ToLower a = ToLower b.
Proof.
  intros Ha Hab.
  rewrite (ToLower_ascii_bytes a Ha).
  rewrite (ToLower_ascii_bytes b) by (rewrite <- (equalFold_isASCII a b Hab); exact Ha).
  apply equalFold_mapBytes. exact Hab.
Qed.

Lemma specName_length_ascii (s : string) :
  isASCII s = true -> String.length (specName s) = String.length s.
Proof.
  intros Ha. unfold specName.
  rewrite (ToLower_ascii_bytes s Ha), !mapBytes_length. reflexivity.
Qed.

(** C3, as the code has it. The mapping does not distinguish letter case:
    two names with the same lowercase form, and so any two ASCII names that
    differ only in the case of their letters, make [SchemaName] end the same
    way with the same identifier and make [TableName] return the same
    identifier. *)
Theorem names_case_insensitive (tb1 tb2 : TB) :
  (ToLower (tb_name tb1) = ToLower (tb_name tb2)
   \/ (isASCII (tb_name tb1) = true /\ differOnlyInCase (tb_name tb1) (tb_name tb2))) ->
  fst (SchemaName tb1) = fst (SchemaName tb2)
  /\ fst (TableName tb1) = fst (TableName tb2).
Proof.
  intros Hc.
  assert (Hl : ToLower (tb_name tb1) = ToLower (tb_name tb2)).
  { destruct Hc as [Hl | [Ha [_ Hf]]]; [exact Hl|].
    apply ToLower_equalFold; assumption. }
  rewrite !TableName_run, !SchemaName_run. unfold specName. rewrite Hl.
  split; [|reflexivity].
  destruct (_ <? 64)%nat; reflexivity.
Qed.

(** C5, as the code has it. An identifier returned by [SchemaName] is
    strictly shorter than 64 bytes, and [TableName] returns the same
    identifier for that test; [SchemaName]'s assertion passes exactly when
    the transformed name is shorter than 64 bytes, which for an ASCII-only
    name is when the name itself is; [TableName] checks no length and
    returns the transformed name whatever its length. *)
Theorem SchemaName_length_bounded (tb : TB) :
  (forall n tb', SchemaName tb = (Returned n, tb') ->
     String.length n < 64 /\ TableName tb = (Returned n, tb'))
  /\ (String.length (specName (tb_name tb)) < 64 ->
      SchemaName tb = (Returned (specName (tb_name tb)), tb))
  /\ (isASCII (tb_name tb) = true -> String.length (tb_name tb) < 64 ->
      exists n, SchemaName tb = (Returned n, tb)
                /\ String.length n = String.length (tb_name tb))
  /\ (64 <= String.length (specName (tb_name tb)) ->
      fst (SchemaName tb) = Goexit /\ tb_failed (snd (SchemaName tb)) = true)
  /\ (exists n, TableName tb = (Returned n, tb)
                /\ String.length n = String.length (specName (tb_name tb))).
Proof.
  rewrite TableName_run, SchemaName_run.
  destruct (Nat.ltb_spec (String.length (specName (tb_name tb))) 64) as [Hlt|Hge].
  - split; [intros n tb' [= <- <-]; split; [exact Hlt | reflexivity]|].
    split; [reflexivity|].
    split; [intros Ha _; eexists; split;
            [reflexivity | apply specName_length_ascii; exact Ha]|].
    split; [lia|]. eexists; split; reflexivity.
  - split; [discriminate|].
    split; [lia|].
    split; [intros Ha Hl; rewrite (specName_length_ascii _ Ha) in Hge; lia|].
    split; [intros _; split; reflexivity|]. eexists; split; reflexivity.
Qed.

End CaseFacts.

Lemma names_case_insensitive_witness :
  fst (@SchemaName Strings.ASCIIOnly (newTB "TestEnvData"))
  = fst (@SchemaName Strings.ASCIIOnly (newTB "testenvdata"))
  /\ fst (@TableName Strings.ASCIIOnly (newTB "TestEnvData"))
     = fst (@TableName Strings.ASCIIOnly (newTB "testenvdata")).
Proof.
  apply (@names_case_insensitive Strings.ASCIIOnly
           (newTB "TestEnvData") (newTB "testenvdata")).
  right. split; [reflexivity|]. split; [discriminate | reflexivity].
Defined.

(** C3 fails as stated: "TestEnvData" and "testenvdata" differ only in
    letter case and resolve to one and the same schema and table
    identifier. *)
Lemma names_case_sensitive_counterexample :
  differOnlyInCase "TestEnvData" "testenvdata"
  /\ @SchemaName Strings.ASCIIOnly (newTB "TestEnvData")
     = (Returned "testenvdata", newTB "TestEnvData")
  /\ @SchemaName Strings.ASCIIOnly (newTB "testenvdata")
     = (Returned "testenvdata", newTB "testenvdata")
  /\ @TableName Strings.ASCIIOnly (newTB "TestEnvData")
     = (Returned "testenvdata", newTB "TestEnvData")
  /\ @TableName Strings.ASCIIOnly (newTB "testenvdata")
     = (Returned "testenvdata", newTB "testenvdata").
Proof.
  split; [split; [discriminate | reflexivity]|].
  repeat split; reflexivity.
Qed.

Lemma SchemaName_length_bounded_witness :
  String.length "testenvdata-fixed-scalars" < 64
  /\ @TableName Strings.ASCIIOnly (newTB "TestEnvData/Fixed Scalars")
     = (Returned "testenvdata-fixed-scalars", newTB "TestEnvData/Fixed Scalars").
Proof.
  apply (@SchemaName_length_bounded Strings.ASCIIOnly
           (newTB "TestEnvData/Fixed Scalars")).
  reflexivity.
Defined.

(** C5 fails as stated for [TableName]: for a test name of 70 bytes it
    returns an identifier of 70 bytes, where [SchemaName] stops the test. *)
Lemma TableName_length_counterexample :
  exists n,
    @TableName Strings.ASCIIOnly
      (newTB "TestQueryComparisonOperators/Documents With Deeply Nested Array Fields")
    = (Returned n,
       newTB "TestQueryComparisonOperators/Documents With Deeply Nested Array Fields")
    /\ String.length n = 70
    /\ ~ String.length n < 64.
Proof.
  exists "testquerycomparisonoperators-documents-with-deeply-nested-array-fields".
  split; [reflexivity|]. split; [reflexivity|].
  change (~ 70 < 64). lia.
Qed.

(** ** Drop-if-exists in [Schema] and [Table] *)

Lemma ignoreTableNotExist_sentinel :
  ignoreTableNotExist (Some ErrTableNotExist) = None.
Proof. reflexivity. Qed.

Lemma error_eqb_sentinel (e : error) :
  error_eqb e ErrTableNotExist = true <-> e = ErrTableNotExist.
Proof. destruct e; cbn; split; congruence. Qed.

Lemma ignoreTableNotExist_other (e : error) :
  e <> ErrTableNotExist -> ignoreTableNotExist (Some e) = Some e.
Proof.
  intros Hne. unfold ignoreTableNotExist.
  destruct (error_eqb e ErrTableNotExist) eqn:E; [|reflexivity].
  apply error_eqb_sentinel in E. contradiction.
Qed.

(** The error left after the drop-if-exists step is nil exactly for nil and
    for the sentinel itself. *)
Lemma ignoreTableNotExist_None (err : option error) :
  ignoreTableNotExist err = None <-> err = None \/ err = Some ErrTableNotExist.
Proof.
  destruct err as [e|]; cbn; [|tauto].
  destruct (error_eqb e ErrTableNotExist) eqn:E.
  - apply error_eqb_sentinel in E. subst. tauto.
  - split; [discriminate|]. intros [|[= ->]]; discriminate.
Qed.

Section HelperFacts.
Context `{Strings.Unicode} {P : Type} `{Pgdb P}.

(** What [Schema] does once the name has passed the length check. *)
Lemma Schema_run (tb : TB) (p : P) :
  (String.length (specName (tb_name tb)) <? 64)%nat = true ->
  Schema (tb, p)
  = let schema := specName (tb_name tb) in
    let (err, p1) := DropDatabase schema p in
    match ignoreTableNotExist err with
    | Some e => (Goexit, (failedWith e (schemaLogged tb), p1))
    | None => SchemaCreate schema (schemaLogged tb) p1
    end.
Proof.
  intros Hlen. unfold Schema, mbind, M_bind, onTB, onPool.
  cbn [fst snd testing.Helper mret M_ret].
  rewrite SchemaName_run, Hlen. unfold SchemaCreate, schemaLogged, failedWith.
  generalize (specName (tb_name tb)). intros schema.
  cbn -[ignoreTableNotExist].
  destruct (DropDatabase schema p) as [err p1]. cbn -[ignoreTableNotExist].
  destruct (ignoreTableNotExist err) as [e|]; [reflexivity|].
  cbn. destruct (CreateDatabase schema p1) as [[e|] p2]; reflexivity.
Qed.

(** What [Table] does. *)
Lemma Table_run (db : string) (tb : TB) (p : P) :
  Table db (tb, p)
  = let table := specName (tb_name tb) in
    let (err, p1) := DropCollection db table p in
    match ignoreTableNotExist err with
    | Some e => (Goexit, (failedWith e (tableLogged tb), p1))
    | None => TableCreate db table (tableLogged tb) p1
    end.
Proof.
  unfold Table, mbind, M_bind, onTB, onPool.
  cbn [fst snd testing.Helper mret M_ret].
  rewrite TableName_run. unfold TableCreate, tableLogged, failedWith.
  generalize (specName (tb_name tb)). intros table.
  cbn -[ignoreTableNotExist].
  destruct (DropCollection db table p) as [err p1]. cbn -[ignoreTableNotExist].
  destruct (ignoreTableNotExist err) as [e|]; [reflexivity|].
  cbn. destruct (CreateCollection db table p1) as [[e|] p2]; reflexivity.
Qed.

Lemma surfaced_failedWith {A} (e : error) (tb : TB) (p : P) :
  surfaced (A := A) e (Goexit, (failedWith e tb, p)).
Proof.
  unfold surfaced, failedWith. cbn. repeat split.
  apply in_or_app. right. left. reflexivity.
Qed.

End HelperFacts.

Section DropIfExists.
Context `{Strings.Unicode} {P : Type} `{Pgdb P}.

(** The sentinel, like nil, lets [Schema] go on to create the schema. *)
Lemma Schema_drop_passes (tb : TB) (p p1 : P) (err : option error) :
  (String.length (specName (tb_name tb)) <? 64)%nat = true ->
  DropDatabase (specName (tb_name tb)) p = (err, p1) ->
  err = None \/ err = Some ErrTableNotExist ->
  Schema (tb, p) = SchemaCreate (specName (tb_name tb)) (schemaLogged tb) p1.
Proof.
  intros Hlen Hdrop Herr. rewrite (Schema_run tb p Hlen). cbv zeta.
  rewrite Hdrop. apply ignoreTableNotExist_None in Herr. rewrite Herr.
  reflexivity.
Qed.

(** Any other error stops [Schema] before anything is created. *)
Lemma Schema_drop_surfaces (tb : TB) (p p1 : P) (e : error) :
  (String.length (specName (tb_name tb)) <? 64)%nat = true ->
  DropDatabase (specName (tb_name tb)) p = (Some e, p1) ->
  e <> ErrTableNotExist ->
  Schema (tb, p) = (Goexit, (failedWith e (schemaLogged tb), p1)).
Proof.
  intros Hlen Hdrop Hne. rewrite (Schema_run tb p Hlen). cbv zeta.
  rewrite Hdrop, (ignoreTableNotExist_other e Hne). reflexivity.
Qed.

Lemma Table_drop_passes (db : string) (tb : TB) (p p1 : P) (err : option error) :
  DropCollection db (specName (tb_name tb)) p = (err, p1) ->
  err = None \/ err = Some ErrTableNotExist ->
  Table db (tb, p) = TableCreate db (specName (tb_name tb)) (tableLogged tb) p1.
Proof.
  intros Hdrop Herr. rewrite (Table_run db tb p). cbv zeta.
  rewrite Hdrop. apply ignoreTableNotExist_None in Herr. rewrite Herr.
  reflexivity.
Qed.

Lemma Table_drop_surfaces (db : string) (tb : TB) (p p1 : P) (e : error) :
  DropCollection db (specName (tb_name tb)) p = (Some e, p1) ->
  e <> ErrTableNotExist ->
  Table db (tb, p) = (Goexit, (failedWith e (tableLogged tb), p1)).
Proof.
  intros Hdrop Hne. rewrite (Table_run db tb p). cbv zeta.
  rewrite Hdrop, (ignoreTableNotExist_other e Hne). reflexivity.
Qed.

(** The cleanup that [Schema] registers drops the schema if it exists. *)
Lemma runCleanup_run (schema : string) (tb : TB) (p : P) :
  runCleanup (cleanupSchema schema) (tb, p)
  = if tb_failed tb
    then (Returned tt,
          (addLog (Logged "Keeping schema %q for debugging." (schema :: nil)) tb, p))
    else let (err, p1) := DropDatabase schema p in
         match ignoreTableNotExist err with
         | Some e => (Goexit, (failedWith e tb, p1))
         | None => (Returned tt, (tb, p1))
         end.
Proof.
  unfold runCleanup, mbind, M_bind, onTB, onPool, failedWith.
  cbn -[ignoreTableNotExist].
  destruct (tb_failed tb); [reflexivity|].
  cbn -[ignoreTableNotExist].
  destruct (DropDatabase schema p) as [err p1]. cbn -[ignoreTableNotExist].
  destruct (ignoreTableNotExist err); reflexivity.
Qed.

(** C4, as the code has it. [Schema] and [Table] compare the error of the
    drop with the sentinel [pgdb.ErrTableNotExist] by [==]: the drop counts
    as success exactly when its error is nil or that very value, and then the
    helper goes on to create the namespace; every other error value,
    whatever its kind, is surfaced as a test failure and nothing is created.
    The two cases exclude each other: a surfaced drop leaves the pool as the
    drop left it, and a drop that passed is never reported. *)
Theorem drop_if_exists_by_identity (db : string) (tb : TB) (p p1 : P)
    (err : option error) :
  ((String.length (specName (tb_name tb)) <? 64)%nat = true ->
   DropDatabase (specName (tb_name tb)) p = (err, p1) ->
   (err = None \/ err = Some ErrTableNotExist ->
      Schema (tb, p) = SchemaCreate (specName (tb_name tb)) (schemaLogged tb) p1)
   /\ (forall e, err = Some e -> e <> ErrTableNotExist ->
      surfaced e (Schema (tb, p)) /\ snd (snd (Schema (tb, p))) = p1)
   /\ (Schema (tb, p) = SchemaCreate (specName (tb_name tb)) (schemaLogged tb) p1
       \/ exists e, err = Some e /\ e <> ErrTableNotExist))
  /\ (DropCollection db (specName (tb_name tb)) p = (err, p1) ->
      (err = None \/ err = Some ErrTableNotExist ->
         Table db (tb, p) = TableCreate db (specName (tb_name tb)) (tableLogged tb) p1)
      /\ (forall e, err = Some e -> e <> ErrTableNotExist ->
         surfaced e (Table db (tb, p)) /\ snd (snd (Table db (tb, p))) = p1)
      /\ (Table db (tb, p) = TableCreate db (specName (tb_name tb)) (tableLogged tb) p1
          \/ exists e, err = Some e /\ e <> ErrTableNotExist)).
Proof.
  assert (Hcases : (err = None \/ err = Some ErrTableNotExist)
                   \/ exists e, err = Some e /\ e <> ErrTableNotExist).
  { destruct err as [e|]; [|left; left; reflexivity].
    destruct (error_eqb e ErrTableNotExist) eqn:E.
    - apply error_eqb_sentinel in E. subst. left. right. reflexivity.
    - right. exists e. split; [reflexivity|]. intros ->. discriminate. }
  split; [intros Hlen Hdrop | intros Hdrop]; (split; [|split]).
  - intros Herr. exact (Schema_drop_passes tb p p1 err Hlen Hdrop Herr).
  - intros e -> Hne. rewrite (Schema_drop_surfaces tb p p1 e Hlen Hdrop Hne).
    split; [apply surfaced_failedWith | reflexivity].
  - destruct Hcases as [Herr|Hother]; [left | right; exact Hother].
    exact (Schema_drop_passes tb p p1 err Hlen Hdrop Herr).
  - intros Herr. exact (Table_drop_passes db tb p p1 err Hdrop Herr).
  - intros e -> Hne. rewrite (Table_drop_surfaces db tb p p1 e Hdrop Hne).
    split; [apply surfaced_failedWith | reflexivity].
  - destruct Hcases as [Herr|Hother]; [left | right; exact Hother].
    exact (Table_drop_passes db tb p p1 err Hdrop Herr).
Qed.

End DropIfExists.

(** C4 fails as stated: an error of the not-found kind that is not the
    sentinel value itself is not treated as success; [Schema] and [Table]
    stop the test as failed after the drop, and no create call is made. *)
Lemma drop_if_exists_by_kind_counterexample :
  kindOf wrappedNotExist = kindOf ErrTableNotExist
  /\ surfaced wrappedNotExist
       (@Schema Strings.ASCIIOnly Scripted _
          (newTB "TestEnvData", mkScripted (Some wrappedNotExist :: nil) nil))
  /\ calls (snd (snd (@Schema Strings.ASCIIOnly Scripted _
          (newTB "TestEnvData", mkScripted (Some wrappedNotExist :: nil) nil))))
     = callDropDatabase "testenvdata" :: nil
  /\ surfaced wrappedNotExist
       (@Table Strings.ASCIIOnly Scripted _ "test"
          (newTB "TestEnvData", mkScripted (Some wrappedNotExist :: nil) nil))
  /\ calls (snd (snd (@Table Strings.ASCIIOnly Scripted _ "test"
          (newTB "TestEnvData", mkScripted (Some wrappedNotExist :: nil) nil))))
     = callDropCollection "test" "testenvdata" :: nil.
Proof.
  split; [reflexivity|].
  split; [repeat split; right; left; reflexivity|].
  split; [reflexivity|].
  split; [repeat split; right; left; reflexivity|].
  reflexivity.
Qed.

Lemma drop_if_exists_by_identity_witness :
  @Schema Strings.ASCIIOnly Scripted _
    (newTB "TestEnvData", mkScripted (Some ErrTableNotExist :: nil) nil)
  = (Returned "testenvdata",
     (addCleanup (cleanupSchema "testenvdata")
        (addLog (Logged "Using schema %q." ("testenvdata" :: nil)) (newTB "TestEnvData")),
      mkScripted nil (callDropDatabase "testenvdata" :: callCreateDatabase "testenvdata" :: nil)))
  /\ @Schema Strings.ASCIIOnly Scripted _
       (newTB "TestEnvData", mkScripted (None :: nil) nil)
     = (Returned "testenvdata",
        (addCleanup (cleanupSchema "testenvdata")
           (addLog (Logged "Using schema %q." ("testenvdata" :: nil)) (newTB "TestEnvData")),
         mkScripted nil (callDropDatabase "testenvdata" :: callCreateDatabase "testenvdata" :: nil))).
Proof.
  split.
  - refine (proj1 (proj1 (@drop_if_exists_by_identity Strings.ASCIIOnly Scripted _
              "test" (newTB "TestEnvData")
              (mkScripted (Some ErrTableNotExist :: nil) nil)
              (mkScripted nil (callDropDatabase "testenvdata" :: nil))
              (Some ErrTableNotExist)) eq_refl eq_refl) _).
    right. reflexivity.
  - refine (proj1 (proj1 (@drop_if_exists_by_identity Strings.ASCIIOnly Scripted _
              "test" (newTB "TestEnvData")
              (mkScripted (None :: nil) nil)
              (mkScripted nil (callDropDatabase "testenvdata" :: nil))
              None) eq_refl eq_refl) _).
    left. reflexivity.
Defined.

(** ** Dropping a namespace that does not exist *)

Module MapperFacts.
Import Mapper.

Lemma dropDatabase_absent (name : string) (cat : catalog) :
  cat !! name = None -> dropDatabase name cat = (Some ErrTableNotExist, cat).
Proof. intros Hn. unfold dropDatabase. rewrite Hn. reflexivity. Qed.

Lemma dropDatabase_present (name : string) (cat : catalog) :
  is_Some (cat !! name) -> dropDatabase name cat = (None, delete name cat).
Proof. intros [t Ht]. unfold dropDatabase. rewrite Ht. reflexivity. Qed.

Lemma dropCollection_absent (db name : string) (cat : catalog) :
  lookupCollection db name cat = None ->
  dropCollection db name cat = (Some ErrTableNotExist, cat).
Proof.
  unfold lookupCollection, dropCollection.
  destruct (cat !! db) as [tables|]; [|reflexivity].
  intros ->. reflexivity.
Qed.

Lemma createDatabase_absent (name : string) (cat : catalog) :
  cat !! name = None -> createDatabase name cat = (None, <[name := ∅]> cat).
Proof. intros Hn. unfold createDatabase. rewrite Hn. reflexivity. Qed.

Lemma createCollection_absent (db name : string) (cat : catalog)
    (tables : gmap string (list Document)) :
  cat !! db = Some tables -> tables !! name = None ->
  createCollection db name cat = (None, <[db := <[name := nil]> tables]> cat).
Proof. intros Hd Hn. unfold createCollection. rewrite Hd, Hn. reflexivity. Qed.

End MapperFacts.

(** C1. On the storage mapper, dropping a database or a collection that does
    not exist returns the distinguished not-found error and leaves the
    catalog as it was.  [Schema] and [Table] treat that error as success and
    go on: run on the mapper for a namespace that does not exist, they create
    it and return its name, the test not failed; and on every pool, a drop
    that returns that error is followed by the create call.  On every pool,
    any error of the drop other than that one stops the test as failed,
    reported in the log, and no create call is made. *)
Theorem drop_nonexistent_then_create `{Strings.Unicode}
    (cat : Mapper.catalog) (db name : string) (tb : TB) :
  (cat !! name = None ->
     Mapper.dropDatabase name cat = (Some ErrTableNotExist, cat))
  /\ (Mapper.lookupCollection db name cat = None ->
     Mapper.dropCollection db name cat = (Some ErrTableNotExist, cat))
  /\ ((String.length (specName (tb_name tb)) <? 64)%nat = true ->
      cat !! specName (tb_name tb) = None ->
      Schema (tb, cat)
      = (Returned (specName (tb_name tb)),
         (addCleanup (cleanupSchema (specName (tb_name tb))) (schemaLogged tb),
          <[specName (tb_name tb) := ∅]> cat)))
  /\ (forall tables : gmap string (list Document), cat !! db = Some tables ->
      tables !! specName (tb_name tb) = None ->
      Table db (tb, cat)
      = (Returned (specName (tb_name tb)),
         (tableLogged tb, <[db := <[specName (tb_name tb) := nil]> tables]> cat)))
  /\ (forall (P : Type) (pool : Pgdb P) (p p1 : P),
      ((String.length (specName (tb_name tb)) <? 64)%nat = true ->
       DropDatabase (specName (tb_name tb)) p = (Some ErrTableNotExist, p1) ->
       Schema (tb, p) = SchemaCreate (specName (tb_name tb)) (schemaLogged tb) p1)
      /\ (DropCollection db (specName (tb_name tb)) p = (Some ErrTableNotExist, p1) ->
          Table db (tb, p) = TableCreate db (specName (tb_name tb)) (tableLogged tb) p1))
  /\ (forall (P : Type) (pool : Pgdb P) (p p1 : P) (e : error),
      e <> ErrTableNotExist ->
      ((String.length (specName (tb_name tb)) <? 64)%nat = true ->
       DropDatabase (specName (tb_name tb)) p = (Some e, p1) ->
       surfaced e (Schema (tb, p)) /\ snd (snd (Schema (tb, p))) = p1)
      /\ (DropCollection db (specName (tb_name tb)) p = (Some e, p1) ->
          surfaced e (Table db (tb, p)) /\ snd (snd (Table db (tb, p))) = p1)).
Proof.
  split; [apply MapperFacts.dropDatabase_absent|].
  split; [apply MapperFacts.dropCollection_absent|].
  split; [|split; [|split]].
  - intros Hlen Hn.
    rewrite (Schema_drop_passes tb cat cat (Some ErrTableNotExist) Hlen).
    + unfold SchemaCreate. cbn [CreateDatabase Mapper.catalog_Pgdb].
      rewrite (MapperFacts.createDatabase_absent _ _ Hn). reflexivity.
    + apply MapperFacts.dropDatabase_absent. exact Hn.
    + right. reflexivity.
  - intros tables Hd Hn.
    rewrite (Table_drop_passes db tb cat cat (Some ErrTableNotExist)).
    + unfold TableCreate. cbn [CreateCollection Mapper.catalog_Pgdb].
      rewrite (MapperFacts.createCollection_absent _ _ _ _ Hd Hn). reflexivity.
    + apply MapperFacts.dropCollection_absent.
      unfold Mapper.lookupCollection. rewrite Hd. exact Hn.
    + right. reflexivity.
  - intros P pool p p1. split.
    + intros Hlen Hdrop. apply (Schema_drop_passes tb p p1 _ Hlen Hdrop).
      right. reflexivity.
    + intros Hdrop. apply (Table_drop_passes db tb p p1 _ Hdrop).
      right. reflexivity.
  - intros P pool p p1 e Hne. split.
    + intros Hlen Hdrop. rewrite (Schema_drop_surfaces tb p p1 e Hlen Hdrop Hne).
      split; [apply surfaced_failedWith | reflexivity].
    + intros Hdrop. rewrite (Table_drop_surfaces db tb p p1 e Hdrop Hne).
      split; [apply surfaced_failedWith | reflexivity].
Qed.

Lemma drop_nonexistent_then_create_witness :
  Mapper.dropDatabase "testenvdata" ∅ = (Some ErrTableNotExist, ∅)
  /\ @Schema Strings.ASCIIOnly _ Mapper.catalog_Pgdb (newTB "TestEnvData", ∅)
     = (Returned "testenvdata",
        (addCleanup (cleanupSchema "testenvdata")
           (addLog (Logged "Using schema %q." ("testenvdata" :: nil)) (newTB "TestEnvData")),
         {["testenvdata" := ∅]})).
Proof.
  destruct (@drop_nonexistent_then_create Strings.ASCIIOnly
              ∅ "test" "testenvdata" (newTB "TestEnvData"))
    as (Hdrop & _ & Hschema & _).
  split.
  - apply Hdrop. apply lookup_empty.
  - apply Hschema; [reflexivity | apply lookup_empty].
Defined.

(** ** Values *)

Lemma bytes_eqb_eq (x y : list byte) : bytes_eqb x y = true <-> x = y.
Proof.
  revert y. induction x as [|b x IH]; intros [|b' y]; cbn; try (split; congruence).
  rewrite andb_true_iff, IH. split.
  - intros [Hb ->]. apply Byte.byte_dec_bl in Hb. congruence.
  - intros [= -> ->]. split; [apply Byte.byte_dec_lb|]; reflexivity.
Qed.

(** [value_eqb] decides equality of values. *)
Lemma value_eqb_eq (a b : value) : value_eqb a b = true <-> a = b.
Proof.
  revert b. induction a using value_nested_ind; intros [];
    cbn [value_eqb]; try (split; congruence).
  - rewrite Z.eqb_eq. split; congruence.
  - rewrite String.eqb_eq. split; congruence.
  - match goal with |- ?f fields fields0 = true <-> _ => set (fields_eqb := f) end.
    assert (Hf : fields_eqb fields fields0 = true <-> fields = fields0).
    { clear -H. revert fields0.
      induction H as [|[k v] fields Hv _ IH]; intros [|[k' v'] fields0]; cbn;
        try (split; congruence).
      fold fields_eqb. rewrite !andb_true_iff, String.eqb_eq, (Hv v'), IH.
      cbn. split; [intros [[-> ->] ->]; reflexivity | intros [= -> -> ->]; auto]. }
    rewrite Hf. split; congruence.
  - match goal with |- ?f items items0 = true <-> _ => set (items_eqb := f) end.
    assert (Hf : items_eqb items items0 = true <-> items = items0).
    { clear -H. revert items0.
      induction H as [|v items Hv _ IH]; intros [|v' items0]; cbn;
        try (split; congruence).
      fold items_eqb. rewrite !andb_true_iff, (Hv v'), IH.
      split; [intros [-> ->]; reflexivity | intros [= -> ->]; auto]. }
    rewrite Hf. split; congruence.
  - rewrite andb_true_iff, bytes_eqb_eq. split.
    + intros [Hs ->]. apply Byte.byte_dec_bl in Hs. congruence.
    + intros [= -> ->]. split; [apply Byte.byte_dec_lb|]; reflexivity.
  - rewrite bytes_eqb_eq. split; congruence.
  - rewrite Bool.eqb_true_iff. split; congruence.
  - rewrite Z.eqb_eq. split; congruence.
  - rewrite andb_true_iff, !String.eqb_eq. split; [intros [-> ->]|intros [= -> ->]]; auto.
  - rewrite Z.eqb_eq. split; congruence.
  - rewrite Z.eqb_eq. split; congruence.
  - rewrite Z.eqb_eq. split; congruence.
  - rewrite Z.eqb_eq. split; congruence.
Qed.

(** ** The scenario of the collection "values" *)

Local Open Scope list_scope.

Module ScenarioFacts.
Import Mapper.

Lemma existsb_sameIdentifier (id : value) (rows : list Document) :
  existsb (sameIdentifier id) rows = true -> Some id ∈ identifier <$> rows.
Proof.
  rewrite existsb_exists. intros (r & Hr & Hs).
  unfold sameIdentifier in Hs. destruct (identifier r) as [id'|] eqn:Hid; [|discriminate].
  apply value_eqb_eq in Hs. subst id'. rewrite <- Hid.
  apply list_elem_of_fmap_2. apply list_elem_of_In. exact Hr.
Qed.

(** A document whose identifier is not yet stored is appended. *)
Lemma insert_fresh (db name : string) (d : Document) (cat : catalog)
    (tables : gmap string (list Document)) (rows : list Document) :
  cat !! db = Some tables -> tables !! name = Some rows ->
  is_Some (identifier d) -> identifier d ∉ identifier <$> rows ->
  insert db name d cat = (None, <[db := <[name := (rows ++ d :: nil)%list]> tables]> cat).
Proof.
  intros Hd Hn [id Hid] Hfresh. unfold insert. rewrite Hd, Hn, Hid.
  destruct (existsb (sameIdentifier id) rows) eqn:E; [|reflexivity].
  exfalso. apply Hfresh. rewrite Hid. apply existsb_sameIdentifier. exact E.
Qed.

(** Documents with identifiers that differ from one another and from the
    stored ones are all appended, in order. *)
Lemma insertAll_distinct (db name : string) (docs : list Document) :
  forall (cat : catalog) (tables : gmap string (list Document)) (rows : list Document),
  cat !! db = Some tables -> tables !! name = Some rows ->
  Forall (fun d => is_Some (identifier d)) docs ->
  NoDup (identifier <$> (rows ++ docs)) ->
  exists cat2, insertAll db name docs cat = (None, cat2)
               /\ lookupCollection db name cat2 = Some (rows ++ docs).
Proof.
  induction docs as [|d docs IH]; intros cat tables rows Hd Hn Hids Hnd.
  - exists cat. split; [reflexivity|].
    unfold lookupCollection. rewrite Hd, Hn, app_nil_r. reflexivity.
  - apply Forall_cons in Hids as [Hid Hids].
    assert (Hfresh : identifier d ∉ identifier <$> rows).
    { rewrite fmap_app, fmap_cons in Hnd. apply NoDup_app in Hnd as (_ & Hdis & _).
      intros Hin. apply (Hdis _ Hin). left. }
    cbn [insertAll]. rewrite (insert_fresh db name d cat tables rows Hd Hn Hid Hfresh).
    destruct (IH (<[db := <[name := (rows ++ d :: nil)%list]> tables]> cat)
                 (<[name := (rows ++ d :: nil)%list]> tables) (rows ++ d :: nil))
      as (cat2 & Hins & Hlook).
    + apply lookup_insert_eq.
    + apply lookup_insert_eq.
    + exact Hids.
    + rewrite <- app_assoc. exact Hnd.
    + exists cat2. split; [exact Hins|]. rewrite Hlook, <- app_assoc. reflexivity.
Qed.

Lemma find_empty_filter (db name : string) (cat : catalog) (rows : list Document) :
  lookupCollection db name cat = Some rows -> find db name nil cat = inr rows.
Proof.
  unfold lookupCollection, find. destruct (cat !! db) as [tables|]; [|discriminate].
  intros ->. f_equal. induction rows as [|r rows IH]; cbn; [|rewrite IH]; reflexivity.
Qed.

(** A successful insert has appended the row to the collection. *)
Lemma insert_success (db name : string) (d : Document) (cat cat' : catalog) :
  insert db name d cat = (None, cat') ->
  lookupCollection db name cat' = Some (rowsOf db name cat ++ d :: nil)
  /\ is_Some (lookupCollection db name cat).
Proof.
  unfold insert, rowsOf, lookupCollection.
  destruct (cat !! db) as [tables|] eqn:Hd; [|discriminate].
  destruct (tables !! name) as [rows|] eqn:Hn; [|discriminate].
  destruct (identifier d) as [id|]; [|discriminate].
  destruct (existsb (sameIdentifier id) rows); [discriminate|].
  intros [= <-]. rewrite !lookup_insert_eq. split; [reflexivity | eexists; reflexivity].
Qed.

Lemma insertAll_success (db name : string) (docs : list Document) :
  forall (cat cat' : catalog) (rows : list Document),
  lookupCollection db name cat = Some rows ->
  insertAll db name docs cat = (None, cat') ->
  lookupCollection db name cat' = Some (rows ++ docs).
Proof.
  induction docs as [|d docs IH]; intros cat cat' rows Hrows.
  - intros [= <-]. rewrite app_nil_r. exact Hrows.
  - cbn [insertAll]. destruct (insert db name d cat) as [[e|] cat1] eqn:Hins;
      [discriminate|].
    intros Hall. apply insert_success in Hins as [Hins _].
    unfold rowsOf in Hins. rewrite Hrows in Hins. cbn [default from_option id] in Hins.
    rewrite (IH cat1 cat' _ Hins Hall), <- app_assoc. reflexivity.
Qed.

Lemma createCollection_success (db name : string) (cat cat1 : catalog) :
  createCollection db name cat = (None, cat1) ->
  lookupCollection db name cat1 = Some nil.
Proof.
  unfold createCollection, lookupCollection.
  destruct (cat !! db) as [tables|]; [|discriminate].
  destruct (tables !! name); [discriminate|].
  intros [= <-]. rewrite !lookup_insert_eq. reflexivity.
Qed.

(** A drop always succeeds and leaves no such collection. *)
Lemma Drop_run (db name : string) (cat : catalog) :
  fst (Drop db name cat) = None
  /\ lookupCollection db name (snd (Drop db name cat)) = None.
Proof.
  unfold Drop, dropCollection, lookupCollection.
  destruct (cat !! db) as [tables|] eqn:Hd; cbn [fst snd]; [|rewrite Hd; auto].
  destruct (tables !! name) eqn:Hn; cbn [fst snd].
  - rewrite lookup_insert_eq, lookup_delete_eq. auto.
  - rewrite Hd. auto.
Qed.

(** After the implicit creation the collection is there with the rows it
    had. *)
Lemma implicit_creation (db name : string) (cat : catalog) :
  let cat1 := snd (createDatabase db cat) in
  let cat2 := snd (createCollection db name cat1) in
  lookupCollection db name cat2 = Some (rowsOf db name cat)
  /\ (fst (createCollection db name cat1) = None
      \/ fst (createCollection db name cat1) = Some ErrAlreadyExist).
Proof.
  unfold createDatabase, createCollection, rowsOf, lookupCollection.
  destruct (cat !! db) as [tables|] eqn:Hd; cbn [fst snd].
  - rewrite Hd. destruct (tables !! name) as [rows|] eqn:Hn; cbn [fst snd].
    + rewrite Hd, Hn. auto.
    + rewrite !lookup_insert_eq. auto.
  - rewrite lookup_insert_eq, lookup_empty. cbn [fst snd].
    rewrite !lookup_insert_eq. auto.
Qed.

Lemma InsertOne_insert (db name : string) (d : Document) (cat : catalog) :
  InsertOne db name d cat
  = insert db name d (snd (createCollection db name (snd (createDatabase db cat)))).
Proof.
  unfold InsertOne. destruct (implicit_creation db name cat) as [_ Herr].
  destruct (createDatabase db cat) as [e0 cat1]. cbn [snd] in *.
  destruct (createCollection db name cat1) as [err cat2]. cbn [fst snd] in *.
  destruct Herr as [-> | ->]; reflexivity.
Qed.

(** A successful [InsertOne] has appended the row, to a collection created
    for it if there was none. *)
Lemma InsertOne_success (db name : string) (d : Document) (cat cat' : catalog) :
  InsertOne db name d cat = (None, cat') ->
  lookupCollection db name cat' = Some (rowsOf db name cat ++ d :: nil).
Proof.
  rewrite InsertOne_insert. intros Hins.
  apply insert_success in Hins as [Hins _].
  destruct (implicit_creation db name cat) as [Hrows _]. cbv zeta in Hrows.
  unfold rowsOf at 1 in Hins. rewrite Hrows in Hins. exact Hins.
Qed.

(** [InsertOne] succeeds for a document whose identifier is not stored. *)
Lemma InsertOne_fresh (db name : string) (d : Document) (cat : catalog) :
  is_Some (identifier d) ->
  identifier d ∉ identifier <$> rowsOf db name cat ->
  exists cat', InsertOne db name d cat = (None, cat').
Proof.
  intros Hid Hfresh. rewrite InsertOne_insert.
  destruct (implicit_creation db name cat) as [Hrows _]. cbv zeta in Hrows.
  set (cat2 := snd (createCollection db name (snd (createDatabase db cat)))) in *.
  unfold lookupCollection in Hrows.
  destruct (cat2 !! db) as [tables|] eqn:Hd; [|discriminate].
  eexists. apply (insert_fresh db name d cat2 tables _ Hd Hrows Hid Hfresh).
Qed.

End ScenarioFacts.

Module TestEnvDataFacts.
Import Mapper ScenarioFacts.

Lemma insertDocs_step (d : Document) (docs : list Document) (tb : TB) (cat : catalog) :
  insertDocs (d :: docs) (tb, cat)
  = match InsertOne "test" "values" d cat with
    | (None, cat1) => insertDocs docs (tb, cat1)
    | (Some e, cat1) => (Goexit, (failedWith e tb, cat1))
    end.
Proof.
  cbn [insertDocs]. unfold mbind, M_bind, onPool, onTB. cbn [fst snd].
  destruct (InsertOne "test" "values" d cat) as [[e|] cat1]; reflexivity.
Qed.

(** When the loop has returned, the documents are in the collection after
    the rows it had, in the order of the loop, and the test's state is as it
    was. *)
Lemma insertDocs_returned (docs : list Document) :
  forall (tb : TB) (cat : catalog) (s' : TB * catalog),
  insertDocs docs (tb, cat) = (Returned tt, s') ->
  fst s' = tb
  /\ rowsOf "test" "values" (snd s') = rowsOf "test" "values" cat ++ docs
  /\ (docs <> nil ->
      lookupCollection "test" "values" (snd s')
      = Some (rowsOf "test" "values" cat ++ docs)).
Proof.
  induction docs as [|d docs IH]; intros tb cat s'.
  - intros [= <-]. cbn [fst snd]. rewrite app_nil_r. repeat split. congruence.
  - rewrite insertDocs_step.
    destruct (InsertOne "test" "values" d cat) as [[e|] cat1] eqn:Hins;
      [discriminate|].
    intros Hrest. apply InsertOne_success in Hins.
    assert (Hrows1 : rowsOf "test" "values" cat1 = rowsOf "test" "values" cat ++ d :: nil)
      by (unfold rowsOf at 1; rewrite Hins; reflexivity).
    destruct (IH tb cat1 s' Hrest) as (Htb & Hrows & Hlook).
    rewrite Hrows1, <- app_assoc in Hrows, Hlook. cbn [app] in Hrows, Hlook.
    split; [exact Htb|]. split; [exact Hrows|]. intros _.
    destruct docs as [|d' docs]; [|apply Hlook; discriminate].
    injection Hrest as <-. cbn [snd]. exact Hins.
Qed.

(** The loop returns when the identifiers differ from one another and from
    the stored ones. *)
Lemma insertDocs_distinct (docs : list Document) :
  forall (tb : TB) (cat : catalog),
  Forall (fun d => is_Some (identifier d)) docs ->
  NoDup (identifier <$> (rowsOf "test" "values" cat ++ docs)) ->
  exists cat', insertDocs docs (tb, cat) = (Returned tt, (tb, cat')).
Proof.
  induction docs as [|d docs IH]; intros tb cat Hids Hnd.
  - exists cat. reflexivity.
  - apply Forall_cons in Hids as [Hid Hids].
    assert (Hfresh : identifier d ∉ identifier <$> rowsOf "test" "values" cat).
    { rewrite fmap_app, fmap_cons in Hnd. apply NoDup_app in Hnd as (_ & Hdis & _).
      intros Hin. apply (Hdis _ Hin). left. }
    destruct (InsertOne_fresh "test" "values" d cat Hid Hfresh) as [cat1 Hins].
    rewrite insertDocs_step, Hins. apply IH; [exact Hids|].
    apply InsertOne_success in Hins.
    unfold rowsOf at 1. rewrite Hins. cbn [default from_option id].
    rewrite <- app_assoc. exact Hnd.
Qed.

(** What [TestEnvData] does: the drop, which passes, and the loop. *)
Lemma TestEnvData_run (docs : list Document) (tb : TB) (cat : catalog) :
  TestEnvData docs (tb, cat)
  = match insertDocs docs (tb, snd (Drop "test" "values" cat)) with
    | (Returned _, s') => (Returned tt, s')
    | (Goexit, s') => (Goexit, s')
    | (Panic msg, s') => (Panic msg, s')
    end.
Proof.
  destruct (Drop_run "test" "values" cat) as [Herr _].
  unfold TestEnvData, mbind, M_bind, onPool, onTB. cbn [fst snd].
  destruct (Drop "test" "values" cat) as [err cat0]. cbn [fst snd] in *. subst err.
  cbn [require.NoError mret M_ret insertProviders]. unfold mbind, M_bind.
  destruct (insertDocs docs (tb, cat0)) as [[[]| |msg] s']; reflexivity.
Qed.

End TestEnvDataFacts.

(** C8. On the storage mapper.  After creating collection "values" in
    database "test" and inserting 5 documents, the collection holds exactly
    those 5 documents and a query with an empty filter returns them, in the
    order they were inserted, which is the ordering policy of the mapper.
    The same holds after a run of [TestEnvData] that has returned, on every
    catalog: the drop it starts with empties the collection and the first
    insert creates it.  Both ways the inserts succeed when the documents
    carry identifiers that differ from one another. *)
Theorem values_scenario_five_documents (cat : Mapper.catalog) (docs : list Document) :
  length docs = 5 ->
  (forall cat1 cat2,
     Mapper.createCollection "test" "values" cat = (None, cat1) ->
     Mapper.insertAll "test" "values" docs cat1 = (None, cat2) ->
     Mapper.lookupCollection "test" "values" cat1 = Some nil
     /\ Mapper.lookupCollection "test" "values" cat2 = Some docs
     /\ exists result,
          Mapper.find "test" "values" nil cat2 = inr result
          /\ result = docs /\ length result = 5)
  /\ (forall tb s',
       TestEnvData docs (tb, cat) = (Returned tt, s') ->
       fst s' = tb
       /\ Mapper.lookupCollection "test" "values" (snd s') = Some docs
       /\ exists result,
            Mapper.find "test" "values" nil (snd s') = inr result
            /\ result = docs /\ length result = 5)
  /\ (Forall (fun d => is_Some (Mapper.identifier d)) docs ->
      NoDup (Mapper.identifier <$> docs) ->
      (forall cat1, Mapper.createCollection "test" "values" cat = (None, cat1) ->
         exists cat2, Mapper.insertAll "test" "values" docs cat1 = (None, cat2))
      /\ (forall tb, exists cat',
            TestEnvData docs (tb, cat) = (Returned tt, (tb, cat')))).
Proof.
  intros Hlen. split; [|split].
  - intros cat1 cat2 Hcreate Hins.
    apply ScenarioFacts.createCollection_success in Hcreate.
    pose proof (ScenarioFacts.insertAll_success _ _ docs cat1 cat2 nil Hcreate Hins) as Hrows.
    cbn [app] in Hrows. split; [exact Hcreate|]. split; [exact Hrows|].
    exists docs. split; [apply ScenarioFacts.find_empty_filter; exact Hrows|].
    split; [reflexivity | exact Hlen].
  - intros tb s'. rewrite TestEnvDataFacts.TestEnvData_run.
    destruct (ScenarioFacts.Drop_run "test" "values" cat) as [_ Hgone].
    destruct (insertDocs docs (tb, snd (Mapper.Drop "test" "values" cat)))
      as [[[]| |msg] s1] eqn:Hloop; try discriminate.
    intros [= <-].
    destruct (TestEnvDataFacts.insertDocs_returned docs _ _ _ Hloop) as (Htb & _ & Hlook).
    unfold Mapper.rowsOf in Hlook. rewrite Hgone in Hlook. cbn [default from_option id app] in Hlook.
    assert (Hne : docs <> nil) by (intros ->; discriminate).
    specialize (Hlook Hne). split; [exact Htb|]. split; [exact Hlook|].
    exists docs. split; [apply ScenarioFacts.find_empty_filter; exact Hlook|].
    split; [reflexivity | exact Hlen].
  - intros Hids Hnd. split.
    + intros cat1 Hcreate.
      pose proof (ScenarioFacts.createCollection_success _ _ _ _ Hcreate) as Hnil.
      unfold Mapper.lookupCollection in Hnil.
      destruct (cat1 !! "test") as [tables|] eqn:Hd; [|discriminate].
      destruct (ScenarioFacts.insertAll_distinct "test" "values" docs cat1 tables nil
                  Hd Hnil Hids Hnd) as (cat2 & Hins & _).
      exists cat2. exact Hins.
    + intros tb. rewrite TestEnvDataFacts.TestEnvData_run.
      destruct (ScenarioFacts.Drop_run "test" "values" cat) as [_ Hgone].
      destruct (TestEnvDataFacts.insertDocs_distinct docs tb
                  (snd (Mapper.Drop "test" "values" cat)) Hids) as [cat' Hloop].
      * unfold Mapper.rowsOf. rewrite Hgone. exact Hnd.
      * exists cat'. rewrite Hloop. reflexivity.
Qed.

Lemma values_scenario_five_documents_witness :
  (exists result,
     Mapper.find "test" "values" nil
       (snd (snd (TestEnvData Mapper.fiveDocuments (newTB "TestEnvData", ∅))))
     = inr result
     /\ result = Mapper.fiveDocuments /\ length result = 5)
  /\ (exists result,
       Mapper.find "test" "values" nil
         (snd (Mapper.insertAll "test" "values" Mapper.fiveDocuments
                 (snd (Mapper.createCollection "test" "values" {["test" := ∅]}))))
       = inr result
       /\ result = Mapper.fiveDocuments /\ length result = 5).
Proof.
  split.
  - destruct (values_scenario_five_documents ∅ Mapper.fiveDocuments eq_refl)
      as (_ & Htest & _).
    refine (proj2 (proj2 (Htest (newTB "TestEnvData")
                            (snd (TestEnvData Mapper.fiveDocuments (newTB "TestEnvData", ∅)))
                            _))).
    vm_compute. reflexivity.
  - destruct (values_scenario_five_documents {["test" := ∅]} Mapper.fiveDocuments eq_refl)
      as (Hscenario & _).
    refine (proj2 (proj2 (Hscenario
              (snd (Mapper.createCollection "test" "values" {["test" := ∅]}))
              (snd (Mapper.insertAll "test" "values" Mapper.fiveDocuments
                      (snd (Mapper.createCollection "test" "values" {["test" := ∅]}))))
              _ _))); vm_compute; reflexivity.
Defined.

(** ** The codec *)

Example decode_encode_everyKind :
  Codec.decode (Codec.encode Codec.everyKind) = inr Codec.everyKind.
Proof. vm_compute. reflexivity. Qed.

Example validDocument_everyKind : Codec.validDocument Codec.everyKind = true.
Proof. vm_compute. reflexivity. Qed.

Example encode_small :
  Codec.encode (("a", VInt32 1) :: nil)
  = (x0c :: x00 :: x00 :: x00 :: x10 :: x61 :: x00 :: x01 :: x00 :: x00 :: x00 :: x00 :: nil)%list.
Proof. vm_compute. reflexivity. Qed.

Example decode_truncated :
  Codec.decode (x0c :: x00 :: x00 :: x00 :: x10 :: x61 :: x00 :: x01 :: nil)%list
  = inl Codec.InvalidEncoding.
Proof. vm_compute. reflexivity. Qed.

Module CodecFacts.
Import Codec.

Local Open Scope list_scope.

Lemma readBytes_app (n : nat) (b rest : list byte) :
  length b = n -> readBytes n (b ++ rest) = Some (b, rest).
Proof.
  intros <-. unfold readBytes.
  rewrite length_app, (proj2 (Nat.leb_le _ _)) by lia.
  rewrite take_app_length, drop_app_length. reflexivity.
Qed.

Lemma readUint_le_split (n : nat) (z : Z) (rest : list byte) :
  (0 <= z < 2 ^ (Z.of_nat n * 8))%Z ->
  readUint n (le_split n z ++ rest) = Some (z, rest).
Proof.
  intros Hz. unfold readUint.
  rewrite readBytes_app by apply length_le_split.
  rewrite le_combine_split, Z.mod_small by exact Hz. reflexivity.
Qed.

Lemma signed_mod (w z : Z) :
  (0 < w)%Z -> (- 2 ^ (w - 1) <= z < 2 ^ (w - 1))%Z ->
  signed w (z mod 2 ^ w) = z.
Proof.
  intros Hw Hz. unfold signed.
  assert (Hp : (2 ^ w = 2 * 2 ^ (w - 1))%Z).
  { rewrite <- Z.pow_succ_r by lia. f_equal. lia. }
  destruct (Z.ltb_spec z 0) as [Hneg|Hpos].
  - replace (z mod 2 ^ w)%Z with (z + 2 ^ w)%Z.
    + destruct (Z.ltb_spec (z + 2 ^ w) (2 ^ (w - 1))); lia.
    + apply Z.mod_unique with (q := (-1)%Z); lia.
  - rewrite Z.mod_small by lia.
    destruct (Z.ltb_spec z (2 ^ (w - 1))); lia.
Qed.

Lemma readInt_le_split (n : nat) (z : Z) (rest : list byte) :
  (0 < n)%nat ->
  (- 2 ^ (8 * Z.of_nat n - 1) <= z < 2 ^ (8 * Z.of_nat n - 1))%Z ->
  readInt n (le_split n z ++ rest) = Some (z, rest).
Proof.
  intros Hn Hz. unfold readInt, readUint.
  rewrite readBytes_app by apply length_le_split.
  rewrite le_combine_split.
  replace (Z.of_nat n * 8)%Z with (8 * Z.of_nat n)%Z by lia.
  rewrite signed_mod by (try exact Hz; lia). reflexivity.
Qed.

Lemma inRange_true (lo hi z : Z) :
  inRange lo hi z = true <-> (lo <= z < hi)%Z.
Proof. unfold inRange. rewrite andb_true_iff, Z.leb_le, Z.ltb_lt. tauto. Qed.

Lemma readCString_cstring (s : string) (rest : list byte) :
  noNUL s = true -> readCString (cstring s ++ rest) = Some (s, rest).
Proof.
  unfold noNUL, cstring. induction s as [|a s IH]; [reflexivity|].
  change (list_byte_of_string (String a s))
    with (byte_of_ascii a :: list_byte_of_string s).
  cbn [forallb app readCString].
  rewrite andb_true_iff, negb_true_iff. intros [Ha Hs].
  rewrite Ha, (IH Hs), ascii_of_byte_of_ascii. reflexivity.
Qed.

Lemma noNUL_string_of_uint (d : Decimal.uint) :
  noNUL (NilEmpty.string_of_uint d) = true.
Proof.
  unfold noNUL.
  induction d; cbn [NilEmpty.string_of_uint]; [reflexivity|..];
    match goal with
    | |- context [list_byte_of_string (String ?a ?s)] =>
        change (list_byte_of_string (String a s))
          with (byte_of_ascii a :: list_byte_of_string s)
    end; cbn [forallb]; rewrite IHd; reflexivity.
Qed.

Lemma noNUL_indexKey (i : nat) : noNUL (indexKey i) = true.
Proof. apply noNUL_string_of_uint. Qed.

Lemma tagOf_nonzero (v : value) : Byte.eqb (tagOf v) x00 = false.
Proof. destruct v; reflexivity. Qed.

(** The encoding of a document and of an array, by fields. *)
Lemma encodeValue_VDocument (fields : list (string * value)) :
  encodeValue (VDocument fields) = framed (encodeFields fields).
Proof.
  reflexivity.
Qed.

Lemma encodeValue_VArray (items : list value) :
  encodeValue (VArray items) = framed (encodeItems 0 items).
Proof.
  reflexivity.
Qed.


Lemma decodeValue_S (fuel : nat) (tag : byte) (bs : list byte) :
  decodeValue (S fuel) tag bs = decodeTagged (decodeFields fuel) tag bs.
Proof. reflexivity. Qed.

Lemma decodeFields_S (fuel : nat) (bs : list byte) :
  decodeFields (S fuel) bs
  = match bs with
    | nil => None
    | tag :: bs1 =>
        if Byte.eqb tag x00 then Some (nil, bs1)
        else
          match readCString bs1 with
          | Some (k, bs2) =>
              match decodeValue fuel tag bs2 with
              | Some (v, bs3) =>
                  match decodeFields fuel bs3 with
                  | Some (fields, rest) => Some ((k, v) :: fields, rest)
                  | None => None
                  end
              | None => None
              end
          | None => None
          end
    end.
Proof. reflexivity. Qed.

Lemma length_cstring (s : string) : length (cstring s) = S (String.length s).
Proof.
  unfold cstring. rewrite length_app. cbn.
  induction s as [|a s IH]; [reflexivity|].
  change (list_byte_of_string (String a s))
    with (byte_of_ascii a :: list_byte_of_string s).
  cbn in *. lia.
Qed.

Lemma length_list_byte_of_string (s : string) :
  length (list_byte_of_string s) = String.length s.
Proof.
  induction s as [|a s IH]; [reflexivity|].
  change (list_byte_of_string (String a s))
    with (byte_of_ascii a :: list_byte_of_string s).
  cbn. rewrite IH. reflexivity.
Qed.

(** The fields of a document are read back up to the terminator, given that
    each value is. *)
Lemma decodeFields_encodeFields (fields : list (string * value)) :
  Forall (fun kv => roundTrips (snd kv)) fields ->
  forallb (fun kv => noNUL (fst kv) && valid (snd kv)) fields = true ->
  forall (fuel : nat) (rest : list byte),
    (length (encodeFields fields) < fuel)%nat ->
    decodeFields fuel (encodeFields fields ++ x00 :: rest) = Some (fields, rest).
Proof.
  induction 1 as [|[k v] fields Hv _ IH]; intros Hvalid fuel rest Hfuel.
  - destruct fuel as [|fuel]; [cbn in Hfuel; lia|]. reflexivity.
  - cbn [forallb fst snd] in Hvalid, Hv.
    apply andb_true_iff in Hvalid as [Hkv Hvalid].
    apply andb_true_iff in Hkv as [Hk Hval].
    cbn [encodeFields] in *. unfold encodeElement in *.
    rewrite length_app in Hfuel. cbn [length] in Hfuel. rewrite length_app in Hfuel.
    destruct fuel as [|fuel]; [lia|].
    rewrite decodeFields_S. rewrite <- app_assoc. cbn [app].
    rewrite tagOf_nonzero, <- app_assoc, (readCString_cstring k _ Hk).
    rewrite (Hv fuel _ Hval) by lia.
    rewrite (IH Hvalid fuel rest) by lia. reflexivity.
Qed.

Lemma encodeItems_keyed (i : nat) (items : list value) :
  encodeItems i items = encodeFields (keyed i items).
Proof.
  revert i. induction items as [|x items IH]; intros i; [reflexivity|].
  cbn [encodeItems keyed encodeFields]. rewrite IH. reflexivity.
Qed.

Lemma map_snd_keyed (i : nat) (items : list value) :
  map snd (keyed i items) = items.
Proof.
  revert i. induction items as [|x items IH]; intros i; [reflexivity|].
  cbn [keyed map snd]. rewrite IH. reflexivity.
Qed.

Lemma keyed_roundTrips (i : nat) (items : list value) :
  Forall roundTrips items ->
  Forall (fun kv => roundTrips (snd kv)) (keyed i items).
Proof.
  intros Hitems. revert i.
  induction Hitems as [|x items Hx _ IH]; intros i; constructor; auto.
Qed.

Lemma keyed_valid (i : nat) (items : list value) :
  forallb valid items = true ->
  forallb (fun kv => noNUL (fst kv) && valid (snd kv)) (keyed i items) = true.
Proof.
  revert i. induction items as [|x items IH]; intros i; [reflexivity|].
  cbn [forallb keyed fst snd]. rewrite !andb_true_iff. intros [Hx Hitems].
  rewrite noNUL_indexKey, Hx, (IH _ Hitems). auto.
Qed.

(** A framed list of fields is read back when its fields are and its length
    fits the length field. *)
Lemma readFramed_framed {A} (readBody : list byte -> option (A * list byte))
    (body rest : list byte) (a : A) :
  readBody (body ++ x00 :: rest) = Some (a, rest) ->
  (Z.of_nat (length (framed body)) < 2 ^ 31)%Z ->
  readFramed readBody (framed body ++ rest) = Some (a, rest).
Proof.
  intros Hbody Hlen. unfold readFramed.
  assert (Hl : length (framed body) = (4 + length body + 1)%nat).
  { unfold framed. rewrite !length_app, length_le_split. cbn. lia. }
  unfold framed at 1. rewrite <- !app_assoc. cbn [app].
  rewrite readInt_le_split.
  - rewrite Hbody.
    rewrite length_app, Hl.
    replace (4 + length body + 1 + length rest - length rest)%nat
      with (4 + length body + 1)%nat by lia.
    rewrite Z.eqb_refl. reflexivity.
  - lia.
  - rewrite Hl in Hlen. change (8 * Z.of_nat 4 - 1)%Z with 31%Z. lia.
Qed.

Ltac decode_tag :=
  rewrite decodeValue_S; unfold decodeTagged; cbn [tagOf];
  match goal with
  | |- context [byte.unsigned ?b] =>
      let z := eval vm_compute in (byte.unsigned b) in
      change (byte.unsigned b) with z
  end; cbv iota.

(** Every valid value is read back from its encoding. *)
Lemma valid_roundTrips (v : value) : roundTrips v.
Proof.
  induction v using value_nested_ind; intros fuel rest Hvalid Hfuel;
    (destruct fuel as [|fuel]; [lia|]); decode_tag.
  - (* double *)
    cbn [valid encodeValue] in *. apply inRange_true in Hvalid.
    rewrite readUint_le_split by exact Hvalid. reflexivity.
  - (* string *)
    cbn [valid encodeValue] in *. apply inRange_true in Hvalid.
    rewrite <- app_assoc, readInt_le_split by (change (8 * Z.of_nat 4 - 1)%Z with 31%Z; lia).
    destruct (Z.leb_spec 1 (Z.of_nat (String.length s + 1))); [|lia].
    replace (Z.to_nat (Z.of_nat (String.length s + 1)) - 1)%nat
      with (String.length s) by lia.
    rewrite <- app_assoc, readBytes_app by apply length_list_byte_of_string.
    cbn [app]. change (Byte.eqb x00 x00) with true. cbv iota.
    rewrite string_of_list_byte_of_string. reflexivity.
  - (* document *)
    rewrite encodeValue_VDocument in *.
    cbn [valid] in Hvalid. apply andb_true_iff in Hvalid as [Hfields Hlen].
    rewrite encodeValue_VDocument in Hlen. apply inRange_true in Hlen.
    rewrite (readFramed_framed _ _ rest fields); [reflexivity| |lia].
    apply decodeFields_encodeFields; [assumption..|].
    unfold framed in Hfuel. rewrite !length_app, length_le_split in Hfuel. lia.
  - (* array *)
    rewrite encodeValue_VArray in *.
    cbn [valid] in Hvalid. apply andb_true_iff in Hvalid as [Hitems Hlen].
    rewrite encodeValue_VArray in Hlen. apply inRange_true in Hlen.
    rewrite encodeItems_keyed in *.
    rewrite (readFramed_framed _ _ rest (keyed 0 items)); [|  |lia].
    + rewrite map_snd_keyed. reflexivity.
    + apply decodeFields_encodeFields;
        [apply keyed_roundTrips; assumption | apply keyed_valid; assumption |].
      unfold framed in Hfuel. rewrite !length_app, length_le_split in Hfuel. lia.
  - (* binary *)
    cbn [valid encodeValue] in *. apply inRange_true in Hvalid.
    rewrite <- app_assoc, readInt_le_split by (change (8 * Z.of_nat 4 - 1)%Z with 31%Z; lia).
    cbn [app]. destruct (Z.leb_spec 0 (Z.of_nat (length data))); [|lia].
    rewrite Nat2Z.id, readBytes_app by reflexivity. reflexivity.
  - (* identifier *)
    cbn [valid encodeValue] in *. apply Nat.eqb_eq in Hvalid.
    rewrite readBytes_app by exact Hvalid. reflexivity.
  - (* boolean *)
    destruct b; reflexivity.
  - (* date-time *)
    cbn [valid encodeValue] in *. apply inRange_true in Hvalid.
    rewrite readInt_le_split by (try change (8 * Z.of_nat 8 - 1)%Z with 63%Z; lia).
    reflexivity.
  - (* null *)
    reflexivity.
  - (* regex *)
    cbn [valid encodeValue] in *. apply andb_true_iff in Hvalid as [Hp Ho].
    rewrite <- app_assoc, (readCString_cstring pattern _ Hp),
      (readCString_cstring options _ Ho). reflexivity.
  - (* int32 *)
    cbn [valid encodeValue] in *. apply inRange_true in Hvalid.
    rewrite readInt_le_split by (try change (8 * Z.of_nat 4 - 1)%Z with 31%Z; lia).
    reflexivity.
  - (* timestamp *)
    cbn [valid encodeValue] in *. apply inRange_true in Hvalid.
    rewrite readUint_le_split by exact Hvalid. reflexivity.
  - (* int64 *)
    cbn [valid encodeValue] in *. apply inRange_true in Hvalid.
    rewrite readInt_le_split by (try change (8 * Z.of_nat 8 - 1)%Z with 63%Z; lia).
    reflexivity.
  - (* decimal *)
    cbn [valid encodeValue] in *. apply inRange_true in Hvalid.
    rewrite readUint_le_split by exact Hvalid. reflexivity.
Qed.

End CodecFacts.

(** C2. For every valid document, of whatever value kinds its fields are,
    decoding its encoding gives the document back, and encoding the decoded
    document again gives the same bytes. *)
Theorem codec_round_trip (d : Document) :
  Codec.validDocument d = true ->
  Codec.decode (Codec.encode d) = inr d
  /\ (forall d', Codec.decode (Codec.encode d) = inr d' ->
        Codec.encode d' = Codec.encode d).
Proof.
  intros Hvalid.
  assert (Hdec : Codec.decode (Codec.encode d) = inr d).
  { unfold Codec.validDocument in Hvalid. cbn [Codec.valid] in Hvalid.
    apply andb_true_iff in Hvalid as [Hfields Hlen].
    apply CodecFacts.inRange_true in Hlen.
    unfold Codec.decode, Codec.encode.
    rewrite CodecFacts.encodeValue_VDocument in *.
    rewrite <- (app_nil_r (Codec.framed (Codec.encodeFields d))) at 2.
    rewrite (CodecFacts.readFramed_framed _ _ nil d); [reflexivity| |lia].
    apply CodecFacts.decodeFields_encodeFields.
    - apply Forall_forall. intros kv _. apply CodecFacts.valid_roundTrips.
    - exact Hfields.
    - unfold Codec.framed. rewrite !length_app, length_le_split. cbn. lia. }
  split; [exact Hdec|].
  intros d' Hd'. rewrite Hdec in Hd'. injection Hd' as <-. reflexivity.
Qed.

Lemma codec_round_trip_witness :
  Codec.decode (Codec.encode Codec.everyKind) = inr Codec.everyKind.
Proof.
  apply (codec_round_trip Codec.everyKind). vm_compute. reflexivity.
Defined.

(** * Further properties of the helpers *)

(** ** The bytes of an identifier *)

Section IdentifierBytes.
Context `{Strings.Unicode}.
Import Strings.

Lemma dashByte_not_separator (c : ascii) : isSeparator (dashByte c) = false.
Proof.
  unfold dashByte, isSeparator.
  destruct (Ascii.eqb c "/") eqn:E1; [reflexivity|].
  destruct (Ascii.eqb c " ") eqn:E2; [reflexivity|].
  cbn. rewrite E1, E2. reflexivity.
Qed.

Lemma anyByte_mapBytes (p : ascii -> bool) (f : ascii -> ascii) (s : string) :
  (forall c, p (f c) = false) -> anyByte p (mapBytes f s) = false.
Proof.
  intros Hp. induction s as [|c s IH]; cbn; [reflexivity|].
  rewrite Hp, IH. reflexivity.
Qed.

Lemma lowerByte_not_isUpper (c : ascii) : isUpperByte (lowerByte c) = false.
Proof.
  destruct (isUpperByte c) eqn:Hu.
  - unfold isUpperByte at 1. rewrite (nat_of_lowerByte_upper c Hu).
    apply isUpperByte_bounds in Hu.
    destruct (Nat.leb_spec (nat_of_ascii c + 32) 90); [lia|].
    apply andb_false_r.
  - rewrite (lowerByte_not_upper c Hu). exact Hu.
Qed.

Lemma lowerByte_idempotent (c : ascii) : lowerByte (lowerByte c) = lowerByte c.
Proof. apply lowerByte_not_upper, lowerByte_not_isUpper. Qed.

Lemma dashByte_isUpper (c : ascii) :
  isUpperByte c = false -> isUpperByte (dashByte c) = false.
Proof.
  intros Hc. unfold dashByte.
  destruct (Ascii.eqb c "/" || Ascii.eqb c " "); [reflexivity | exact Hc].
Qed.

Lemma dashByte_isASCII (c : ascii) :
  isASCIIByte c = true -> isASCIIByte (dashByte c) = true.
Proof.
  intros Hc. unfold dashByte.
  destruct (Ascii.eqb c "/" || Ascii.eqb c " "); [reflexivity | exact Hc].
Qed.

Lemma dashByte_idempotent (c : ascii) : dashByte (dashByte c) = dashByte c.
Proof.
  unfold dashByte at 1.
  pose proof (dashByte_not_separator c) as Hs. unfold isSeparator in Hs.
  rewrite Hs. reflexivity.
Qed.

(** The last step of the transformation on a byte already lowered. *)
Lemma lowerByte_dashByte_lowerByte (c : ascii) :
  lowerByte (dashByte (lowerByte c)) = dashByte (lowerByte c).
Proof.
  apply lowerByte_not_upper, dashByte_isUpper, lowerByte_not_isUpper.
Qed.

Lemma allBytes_mapBytes (p : ascii -> bool) (f : ascii -> ascii) (s : string) :
  (forall c, p c = true -> p (f c) = true) ->
  allBytes p s = true -> allBytes p (mapBytes f s) = true.
Proof.
  intros Hp. induction s as [|c s IH]; cbn; [reflexivity|].
  rewrite !andb_true_iff. intros [Hc Hs]. split; [apply Hp; exact Hc | apply IH; exact Hs].
Qed.

Lemma specName_ascii (s : string) :
  isASCII s = true ->
  specName s = mapBytes (fun c => dashByte (lowerByte c)) s.
Proof.
  intros Ha. unfold specName.
  rewrite (ToLower_ascii_bytes s Ha), mapBytes_mapBytes. reflexivity.
Qed.

Lemma specName_isASCII (s : string) :
  isASCII s = true -> isASCII (specName s) = true.
Proof.
  intros Ha. rewrite (specName_ascii s Ha). unfold isASCII.
  apply allBytes_mapBytes; [|exact Ha].
  intros c Hc. apply dashByte_isASCII. rewrite lowerByte_isASCII. exact Hc.
Qed.

Lemma specName_idempotent (s : string) :
  isASCII s = true -> specName (specName s) = specName s.
Proof.
  intros Ha. rewrite (specName_ascii (specName s) (specName_isASCII s Ha)).
  rewrite (specName_ascii s Ha), mapBytes_mapBytes.
  apply mapBytes_ext. intros c.
  rewrite lowerByte_dashByte_lowerByte. apply dashByte_idempotent.
Qed.

(** X1. An identifier returned by [SchemaName] or [TableName] has no "/" and
    no " " in it, whatever the test's name; for an ASCII-only test name it
    has no upper-case letter either, is ASCII-only and has as many bytes as
    the test's name. *)
Theorem identifier_bytes (tb : TB) (n : string) (tb' : TB) :
  SchemaName tb = (Returned n, tb') \/ TableName tb = (Returned n, tb') ->
  anyByte isSeparator n = false
  /\ (isASCII (tb_name tb) = true ->
      hasUpper n = false
      /\ isASCII n = true
      /\ String.length n = String.length (tb_name tb)).
Proof.
  intros Hn.
  assert (Hspec : n = specName (tb_name tb)).
  { destruct Hn as [Hn|Hn].
    - rewrite SchemaName_run in Hn. destruct (_ <? 64)%nat; [|discriminate].
      congruence.
    - rewrite TableName_run in Hn. congruence. }
  subst n. split.
  - unfold specName. apply anyByte_mapBytes. exact dashByte_not_separator.
  - intros Ha. split; [|split].
    + rewrite (specName_ascii _ Ha). unfold hasUpper. apply anyByte_mapBytes.
      intros c. apply dashByte_isUpper, lowerByte_not_isUpper.
    + apply specName_isASCII. exact Ha.
    + apply specName_length_ascii. exact Ha.
Qed.

(** X2. The transformation is stable on its own results: for an ASCII-only
    test name, a test named by the identifier that [TableName] returned gets
    the very same identifier from [TableName], and from [SchemaName] when it
    is shorter than 64 bytes. *)
Theorem identifier_stable (tb1 tb2 : TB) (n : string) (tb1' : TB) :
  isASCII (tb_name tb1) = true ->
  TableName tb1 = (Returned n, tb1') ->
  tb_name tb2 = n ->
  TableName tb2 = (Returned n, tb2)
  /\ (String.length n < 64 -> SchemaName tb2 = (Returned n, tb2)).
Proof.
  intros Ha Hn Hname. rewrite TableName_run in Hn. injection Hn as Hn _.
  rewrite TableName_run, SchemaName_run, Hname, <- Hn.
  rewrite (specName_idempotent _ Ha). split; [reflexivity|].
  intros Hlen. apply Nat.ltb_lt in Hlen. rewrite Hlen. reflexivity.
Qed.

End IdentifierBytes.

Lemma identifier_bytes_witness :
  Strings.anyByte isSeparator "testenvdata-fixed-scalars" = false.
Proof.
  refine (proj1 (@identifier_bytes Strings.ASCIIOnly (newTB "TestEnvData/Fixed Scalars")
                   "testenvdata-fixed-scalars" (newTB "TestEnvData/Fixed Scalars") _)).
  right. reflexivity.
Defined.

Lemma identifier_stable_witness :
  @TableName Strings.ASCIIOnly (newTB "testenvdata-fixed-scalars")
  = (Returned "testenvdata-fixed-scalars", newTB "testenvdata-fixed-scalars").
Proof.
  refine (proj1 (@identifier_stable Strings.ASCIIOnly (newTB "TestEnvData/Fixed Scalars")
                   (newTB "testenvdata-fixed-scalars") "testenvdata-fixed-scalars"
                   (newTB "TestEnvData/Fixed Scalars") _ _ _)); reflexivity.
Defined.

(** ** Names that share an identifier *)

Section Collisions.
Context `{Strings.Unicode}.
Import Strings.

Lemma isUpperByte_not_dashLike (c : ascii) :
  isUpperByte c = true -> isDashLike c = false.
Proof.
  intros Hu. apply isUpperByte_bounds in Hu. unfold isDashLike.
  destruct (Ascii.eqb_spec c "/") as [->|_];
    [change (nat_of_ascii "/") with 47 in Hu; lia|].
  destruct (Ascii.eqb_spec c " ") as [->|_];
    [change (nat_of_ascii " ") with 32 in Hu; lia|].
  destruct (Ascii.eqb_spec c "-") as [->|_];
    [change (nat_of_ascii "-") with 45 in Hu; lia|].
  reflexivity.
Qed.

Lemma lowered_not_dashLike (c : ascii) :
  isUpperByte c = true -> isDashLike (lowerByte c) = false.
Proof.
  intros Hu. pose proof (nat_of_lowerByte_upper c Hu) as Hn.
  apply isUpperByte_bounds in Hu. unfold isDashLike.
  destruct (Ascii.eqb_spec (lowerByte c) "/") as [E|_];
    [rewrite E in Hn; change (nat_of_ascii "/") with 47 in Hn; lia|].
  destruct (Ascii.eqb_spec (lowerByte c) " ") as [E|_];
    [rewrite E in Hn; change (nat_of_ascii " ") with 32 in Hn; lia|].
  destruct (Ascii.eqb_spec (lowerByte c) "-") as [E|_];
    [rewrite E in Hn; change (nat_of_ascii "-") with 45 in Hn; lia|].
  reflexivity.
Qed.

Lemma isDashLike_lowerByte (c : ascii) : isDashLike (lowerByte c) = isDashLike c.
Proof.
  destruct (isUpperByte c) eqn:Hu.
  - rewrite (lowered_not_dashLike c Hu), (isUpperByte_not_dashLike c Hu). reflexivity.
  - rewrite (lowerByte_not_upper c Hu). reflexivity.
Qed.

Lemma dashByte_dashLike (x : ascii) :
  dashByte x = if isDashLike x then "-"%char else x.
Proof.
  unfold dashByte, isDashLike.
  destruct (Ascii.eqb x "/" || Ascii.eqb x " "); [reflexivity|].
  cbn [orb]. destruct (Ascii.eqb_spec x "-") as [->|_]; reflexivity.
Qed.

(** Two bytes give the same byte of the identifier exactly when the
    identifier does not tell them apart. *)
Lemma identifierByte_eqb (c d : ascii) :
  Ascii.eqb (dashByte (lowerByte c)) (dashByte (lowerByte d)) = sameIdentifierByte c d.
Proof.
  unfold sameIdentifierByte, sameLetter.
  rewrite !dashByte_dashLike, <- (isDashLike_lowerByte c), <- (isDashLike_lowerByte d).
  set (x := lowerByte c). set (y := lowerByte d).
  destruct (isDashLike x) eqn:Hx, (isDashLike y) eqn:Hy; cbn [andb].
  - rewrite orb_true_r. reflexivity.
  - rewrite orb_false_r.
    destruct (Ascii.eqb_spec "-" y) as [<-|_]; [discriminate|].
    destruct (Ascii.eqb_spec x y) as [->|_]; [congruence | reflexivity].
  - rewrite orb_false_r.
    destruct (Ascii.eqb_spec x "-") as [->|_]; [discriminate|].
    destruct (Ascii.eqb_spec x y) as [->|_]; [congruence | reflexivity].
  - rewrite orb_false_r. reflexivity.
Qed.

Lemma mapBytes_eq_iff (f : ascii -> ascii) (r : ascii -> ascii -> bool) :
  (forall c d, Ascii.eqb (f c) (f d) = r c d) ->
  forall a b,
    mapBytes f a = mapBytes f b
    <-> (fix same (a b : string) : bool :=
           match a, b with
           | EmptyString, EmptyString => true
           | String c a', String d b' => r c d && same a' b'
           | _, _ => false
           end) a b = true.
Proof.
  intros Hr. induction a as [|c a IH]; intros [|d b]; cbn [mapBytes];
    try (split; [discriminate | discriminate]); [tauto|].
  rewrite andb_true_iff, <- Hr, <- IH, Ascii.eqb_eq.
  split; [intros [= -> ->]; auto | intros [-> ->]; reflexivity].
Qed.

(** X12. Which tests share an identifier: two ASCII-only test names get the
    same identifier from [TableName] (and the same outcome from
    [SchemaName]) exactly when they have the same length and agree byte by
    byte up to the case of letters and up to the choice among "/", " " and
    "-". *)
Theorem identifier_collisions (tb1 tb2 : TB) :
  isASCII (tb_name tb1) = true ->
  isASCII (tb_name tb2) = true ->
  (fst (TableName tb1) = fst (TableName tb2)
   <-> sameIdentifierName (tb_name tb1) (tb_name tb2) = true)
  /\ (sameIdentifierName (tb_name tb1) (tb_name tb2) = true ->
      fst (SchemaName tb1) = fst (SchemaName tb2)).
Proof.
  intros Ha Hb.
  assert (Hiff : specName (tb_name tb1) = specName (tb_name tb2)
                 <-> sameIdentifierName (tb_name tb1) (tb_name tb2) = true).
  { rewrite (specName_ascii _ Ha), (specName_ascii _ Hb).
    apply (mapBytes_eq_iff _ sameIdentifierByte identifierByte_eqb). }
  split.
  - rewrite !TableName_run. cbn [fst]. rewrite <- Hiff.
    split; [intros [= E]; exact E | intros ->; reflexivity].
  - intros Hs. apply Hiff in Hs. rewrite !SchemaName_run, Hs.
    destruct (_ <? 64)%nat; reflexivity.
Qed.

End Collisions.

Lemma identifier_collisions_witness :
  fst (@TableName Strings.ASCIIOnly (newTB "TestQuery/Empty Filter"))
  = fst (@TableName Strings.ASCIIOnly (newTB "testquery-empty/filter")).
Proof.
  apply (proj1 (@identifier_collisions Strings.ASCIIOnly
                  (newTB "TestQuery/Empty Filter") (newTB "testquery-empty/filter")
                  eq_refl eq_refl)).
  reflexivity.
Defined.

(** ** What a helper leaves of the test's state *)

Local Open Scope list_scope.

Lemma laterState_refl (tb : TB) : laterState tb tb.
Proof.
  repeat split; auto.
  - exists nil. symmetry. apply app_nil_r.
  - exists nil. reflexivity.
Qed.

Lemma laterState_trans (a b c : TB) :
  laterState a b -> laterState b c -> laterState a c.
Proof.
  intros (Hn & Hs & Hf & Hk & [l1 Hl] & [c1 Hc]) (Hn' & Hs' & Hf' & Hk' & [l2 Hl'] & [c2 Hc']).
  repeat split; try congruence; auto.
  - exists (l1 ++ l2). rewrite Hl', Hl, app_assoc. reflexivity.
  - exists (c2 ++ c1). rewrite Hc', Hc, app_assoc. reflexivity.
Qed.

Lemma laterState_setFailed (tb : TB) : laterState tb (setFailed tb).
Proof.
  repeat split; auto.
  - exists nil. symmetry. apply app_nil_r.
  - exists nil. reflexivity.
Qed.

Lemma laterState_setSkipped (tb : TB) : laterState tb (setSkipped tb).
Proof.
  repeat split; auto.
  - exists nil. symmetry. apply app_nil_r.
  - exists nil. reflexivity.
Qed.

Lemma laterState_addLog (e : logEntry) (tb : TB) : laterState tb (addLog e tb).
Proof.
  repeat split; auto.
  - exists (e :: nil). reflexivity.
  - exists nil. reflexivity.
Qed.

Lemma laterState_addCleanup (c : cleanup) (tb : TB) : laterState tb (addCleanup c tb).
Proof.
  repeat split; auto.
  - exists nil. symmetry. apply app_nil_r.
  - exists (c :: nil). reflexivity.
Qed.

Lemma onlyAdds_ret {A} (a : A) : onlyAdds (mret a).
Proof. intros tb. apply laterState_refl. Qed.

Lemma onlyAdds_bind {A B} (m : M TB A) (f : A -> M TB B) :
  onlyAdds m -> (forall a, onlyAdds (f a)) -> onlyAdds (m ≫= f).
Proof.
  intros Hm Hf tb. specialize (Hm tb). unfold mbind, M_bind.
  destruct (m tb) as [[a| |msg] tb1]; cbn [snd] in *; try exact Hm.
  apply (laterState_trans _ tb1); [exact Hm | apply Hf].
Qed.

Lemma onlyAdds_modify (f : TB -> TB) :
  (forall tb, laterState tb (f tb)) -> onlyAdds (modify f).
Proof. intros Hf tb. apply Hf. Qed.

Lemma onlyAdds_Log (e : logEntry) : onlyAdds (testing.Log e).
Proof. apply onlyAdds_modify. apply laterState_addLog. Qed.

Lemma onlyAdds_FailNow {A} : onlyAdds (@testing.FailNow A).
Proof. intros tb. apply laterState_setFailed. Qed.

Lemma onlyAdds_Error (e : logEntry) : onlyAdds (testing.Error e).
Proof.
  apply onlyAdds_bind; [apply onlyAdds_Log|].
  intros _. apply onlyAdds_modify. apply laterState_setFailed.
Qed.

Lemma onlyAdds_Skip (msg : string) : onlyAdds (testing.Skip msg).
Proof.
  apply onlyAdds_bind; [apply onlyAdds_Log|].
  intros _ tb. apply laterState_setSkipped.
Qed.

Lemma onlyAdds_Less (a b : nat) : onlyAdds (require.Less a b).
Proof.
  unfold require.Less. destruct (a <? b)%nat; [apply onlyAdds_ret|].
  apply onlyAdds_bind; [apply onlyAdds_Error | intros _; apply onlyAdds_FailNow].
Qed.

Lemma onlyAdds_NoError (err : option error) : onlyAdds (require.NoError err).
Proof.
  destruct err as [e|]; [|apply onlyAdds_ret].
  apply onlyAdds_bind; [apply onlyAdds_Error | intros _; apply onlyAdds_FailNow].
Qed.

Lemma onlyAdds_read {A} (f : TB -> A) : onlyAdds (fun tb => (Returned (f tb), tb)).
Proof. intros tb. apply laterState_refl. Qed.

Lemma onlyAdds_deref (opts : option PoolOpts) : onlyAdds (@deref_ReadOnly TB opts).
Proof. destruct opts; intros tb; apply laterState_refl. Qed.

Lemma onlyAdds_PoolConnString (opts : option PoolOpts) : onlyAdds (PoolConnString opts).
Proof.
  unfold PoolConnString.
  apply onlyAdds_bind; [apply onlyAdds_ret|]. intros _.
  apply onlyAdds_bind; [apply (onlyAdds_read tb_short)|]. intros short.
  apply onlyAdds_bind; [destruct short; [apply onlyAdds_Skip | apply onlyAdds_ret]|].
  intros _.
  apply onlyAdds_bind; [apply onlyAdds_deref|]. intros readOnly.
  apply onlyAdds_ret.
Qed.

Section OnlyAdds.
Context `{Strings.Unicode} {P : Type} `{Pgdb P}.

Lemma onlyAdds_SchemaName : onlyAdds SchemaName.
Proof.
  unfold SchemaName.
  apply onlyAdds_bind; [apply onlyAdds_ret|]. intros _.
  apply onlyAdds_bind; [apply (onlyAdds_read tb_name)|]. intros name.
  apply onlyAdds_bind; [apply onlyAdds_Less | intros _; apply onlyAdds_ret].
Qed.

Lemma onlyAdds_TableName : onlyAdds TableName.
Proof.
  unfold TableName.
  apply onlyAdds_bind; [apply onlyAdds_ret|]. intros _.
  apply onlyAdds_bind; [apply (onlyAdds_read tb_name) | intros name; apply onlyAdds_ret].
Qed.

Lemma onlyAddsW_ret {A} (a : A) : onlyAddsW (P := P) (mret a).
Proof. intros tb p. apply laterState_refl. Qed.

Lemma onlyAddsW_bind {A B} (m : M (TB * P) A) (f : A -> M (TB * P) B) :
  onlyAddsW m -> (forall a, onlyAddsW (f a)) -> onlyAddsW (m ≫= f).
Proof.
  intros Hm Hf tb p. specialize (Hm tb p). unfold mbind, M_bind.
  destruct (m (tb, p)) as [[a| |msg] [tb1 p1]]; cbn [fst snd] in *; try exact Hm.
  apply (laterState_trans _ tb1); [exact Hm | apply Hf].
Qed.

Lemma onlyAddsW_onTB {A} (m : M TB A) : onlyAdds m -> onlyAddsW (P := P) (onTB m).
Proof.
  intros Hm tb p. specialize (Hm tb). unfold onTB. cbn [fst snd].
  destruct (m tb) as [r tb1]. exact Hm.
Qed.

Lemma onlyAddsW_onPool {A} (f : P -> A * P) : onlyAddsW (onPool f).
Proof.
  intros tb p. unfold onPool. cbn [fst snd]. destruct (f p) as [a p1].
  apply laterState_refl.
Qed.

Lemma onlyAddsW_Schema : onlyAddsW Schema.
Proof.
  unfold Schema.
  apply onlyAddsW_bind; [apply onlyAddsW_onTB, onlyAdds_ret|]. intros _.
  apply onlyAddsW_bind; [apply onlyAddsW_onTB, onlyAdds_SchemaName|]. intros schema.
  apply onlyAddsW_bind; [apply onlyAddsW_onTB, onlyAdds_Log|]. intros _.
  apply onlyAddsW_bind; [apply onlyAddsW_onPool|]. intros err.
  apply onlyAddsW_bind; [apply onlyAddsW_onTB, onlyAdds_NoError|]. intros _.
  apply onlyAddsW_bind; [apply onlyAddsW_onPool|]. intros err2.
  apply onlyAddsW_bind; [apply onlyAddsW_onTB, onlyAdds_NoError|]. intros _.
  apply onlyAddsW_bind; [|intros _; apply onlyAddsW_ret].
  apply onlyAddsW_onTB, onlyAdds_modify, laterState_addCleanup.
Qed.

Lemma onlyAddsW_Table (db : string) : onlyAddsW (Table db).
Proof.
  unfold Table.
  apply onlyAddsW_bind; [apply onlyAddsW_onTB, onlyAdds_ret|]. intros _.
  apply onlyAddsW_bind; [apply onlyAddsW_onTB, onlyAdds_TableName|]. intros table.
  apply onlyAddsW_bind; [apply onlyAddsW_onTB, onlyAdds_Log|]. intros _.
  apply onlyAddsW_bind; [apply onlyAddsW_onPool|]. intros err.
  apply onlyAddsW_bind; [apply onlyAddsW_onTB, onlyAdds_NoError|]. intros _.
  apply onlyAddsW_bind; [apply onlyAddsW_onPool|]. intros err2.
  apply onlyAddsW_bind; [apply onlyAddsW_onTB, onlyAdds_NoError|]. intros _.
  apply onlyAddsW_ret.
Qed.

Lemma onlyAddsW_runCleanup (c : cleanup) : onlyAddsW (runCleanup c).
Proof.
  destruct c as [schema]. unfold runCleanup.
  apply onlyAddsW_bind; [apply onlyAddsW_onTB, (onlyAdds_read tb_failed)|].
  intros [|]; [apply onlyAddsW_onTB, onlyAdds_Log|].
  apply onlyAddsW_bind; [apply onlyAddsW_onPool|]. intros err.
  apply onlyAddsW_onTB, onlyAdds_NoError.
Qed.

(** X3. No helper of the package rewrites the test's state: after
    [PoolConnString], [SchemaName], [TableName], [Schema], [Table] or the
    cleanup of [Schema], whatever the outcome and whatever the pool answers,
    the test has the name and flags it had, a failure or skip recorded before
    is still recorded, the log has only grown at its end, and every cleanup
    function registered before is still registered. *)
Theorem helpers_only_add :
  (forall opts, onlyAdds (PoolConnString opts))
  /\ onlyAdds SchemaName
  /\ onlyAdds TableName
  /\ onlyAddsW Schema
  /\ (forall db, onlyAddsW (Table db))
  /\ (forall c, onlyAddsW (runCleanup c)).
Proof.
  split; [exact onlyAdds_PoolConnString|].
  split; [exact onlyAdds_SchemaName|].
  split; [exact onlyAdds_TableName|].
  split; [exact onlyAddsW_Schema|].
  split; [exact onlyAddsW_Table | exact onlyAddsW_runCleanup].
Qed.

End OnlyAdds.

(** ** The calls a helper makes on the pool *)

Section TooLong.
Context `{Strings.Unicode} {P : Type} `{Pgdb P}.

(** What [Schema] does when the name fails the length check. *)
Lemma Schema_too_long (tb : TB) (p : P) :
  (String.length (specName (tb_name tb)) <? 64)%nat = false ->
  Schema (tb, p)
  = (Goexit,
     (setFailed (setFailed
        (addLog (NotLess (String.length (specName (tb_name tb))) 64) tb)), p)).
Proof.
  intros Hlen. unfold Schema, mbind, M_bind, onTB, onPool.
  cbn [fst snd testing.Helper mret M_ret].
  rewrite SchemaName_run, Hlen. reflexivity.
Qed.

End TooLong.

Section Calls.
Context `{Strings.Unicode} {P : Type} `{Pgdb P}.

Local Open Scope list_scope.

(** The calls of a recording pool, unfolded. *)
Lemma traced_DropDatabase (db : string) (t : list call) (p : P) :
  DropDatabase db ((t, p) : Traced P)
  = (fst (DropDatabase db p), (t ++ callDropDatabase db :: nil, snd (DropDatabase db p))).
Proof. cbn. unfold recorded. cbn. destruct (DropDatabase db p); reflexivity. Qed.

Lemma traced_CreateDatabase (db : string) (t : list call) (p : P) :
  CreateDatabase db ((t, p) : Traced P)
  = (fst (CreateDatabase db p), (t ++ callCreateDatabase db :: nil, snd (CreateDatabase db p))).
Proof. cbn. unfold recorded. cbn. destruct (CreateDatabase db p); reflexivity. Qed.

Lemma traced_DropCollection (db table : string) (t : list call) (p : P) :
  DropCollection db table ((t, p) : Traced P)
  = (fst (DropCollection db table p),
     (t ++ callDropCollection db table :: nil, snd (DropCollection db table p))).
Proof. cbn. unfold recorded. cbn. destruct (DropCollection db table p); reflexivity. Qed.

Lemma traced_CreateCollection (db table : string) (t : list call) (p : P) :
  CreateCollection db table ((t, p) : Traced P)
  = (fst (CreateCollection db table p),
     (t ++ callCreateCollection db table :: nil, snd (CreateCollection db table p))).
Proof. cbn. unfold recorded. cbn. destruct (CreateCollection db table p); reflexivity. Qed.

(** X4. On every pool, [Schema] asks the backend for at most two things, in
    this order: to drop the schema named after the test, and, only if that
    drop returned nil or the sentinel, to create it.  When the name fails the
    length check it asks for nothing.  It never touches a collection.
    Recording the calls changes neither the outcome nor the states. *)
Theorem Schema_calls (tb : TB) (t : list call) (p : P) :
  fst (snd (snd (Schema (tb, ((t, p) : Traced P))))) = t ++ schemaCalls tb p
  /\ fst (Schema (tb, ((t, p) : Traced P))) = fst (Schema (tb, p))
  /\ fst (snd (Schema (tb, ((t, p) : Traced P)))) = fst (snd (Schema (tb, p)))
  /\ snd (snd (snd (Schema (tb, ((t, p) : Traced P))))) = snd (snd (Schema (tb, p))).
Proof.
  unfold schemaCalls. destruct (_ <? 64)%nat eqn:Hlen.
  - rewrite (Schema_run tb p Hlen).
    rewrite (Schema_run (P := Traced P) tb (t, p) Hlen). cbv zeta.
    rewrite traced_DropDatabase. unfold dropPasses.
    destruct (DropDatabase (specName (tb_name tb)) p) as [err p1]. cbn [fst snd].
    destruct (ignoreTableNotExist err) as [e|]; [repeat split|].
    unfold SchemaCreate. rewrite traced_CreateDatabase.
    destruct (CreateDatabase (specName (tb_name tb)) p1) as [[e|] p2];
      cbn [fst snd]; rewrite <- app_assoc; repeat split.
  - rewrite (Schema_too_long tb p Hlen).
    rewrite (Schema_too_long (P := Traced P) tb (t, p) Hlen).
    cbn [fst snd]. rewrite app_nil_r. repeat split.
Qed.

(** X5. On every pool, [Table] asks the backend to drop the collection named
    after the test and, only if that drop returned nil or the sentinel, to
    create it, both in the database it was given; it never touches a
    database, and it registers no cleanup function, whatever the outcome. *)
Theorem Table_calls (db : string) (tb : TB) (t : list call) (p : P) :
  fst (snd (snd (Table db (tb, ((t, p) : Traced P))))) = t ++ tableCalls db tb p
  /\ fst (Table db (tb, ((t, p) : Traced P))) = fst (Table db (tb, p))
  /\ fst (snd (Table db (tb, ((t, p) : Traced P)))) = fst (snd (Table db (tb, p)))
  /\ snd (snd (snd (Table db (tb, ((t, p) : Traced P))))) = snd (snd (Table db (tb, p)))
  /\ tb_cleanups (fst (snd (Table db (tb, p)))) = tb_cleanups tb.
Proof.
  unfold tableCalls. rewrite (Table_run db tb p).
  rewrite (Table_run (P := Traced P) db tb (t, p)). cbv zeta.
  rewrite traced_DropCollection. unfold dropPasses.
  destruct (DropCollection db (specName (tb_name tb)) p) as [err p1]. cbn [fst snd].
  destruct (ignoreTableNotExist err) as [e|]; [repeat split|].
  unfold TableCreate. rewrite traced_CreateCollection.
  destruct (CreateCollection db (specName (tb_name tb)) p1) as [[e|] p2];
    cbn [fst snd]; rewrite <- app_assoc; repeat split.
Qed.

End Calls.

Section SchemaReturns.
Context `{Strings.Unicode} {P : Type} `{Pgdb P}.

(** What must have happened when [Schema] has returned. *)
Lemma Schema_returned (tb : TB) (p : P) (n : string) (s' : TB * P) :
  Schema (tb, p) = (Returned n, s') ->
  n = specName (tb_name tb)
  /\ dropPasses (fst (DropDatabase n p)) = true
  /\ fst (CreateDatabase n (snd (DropDatabase n p))) = None
  /\ s' = (addCleanup (cleanupSchema n) (schemaLogged tb),
           snd (CreateDatabase n (snd (DropDatabase n p)))).
Proof.
  destruct (String.length (specName (tb_name tb)) <? 64)%nat eqn:Hlen.
  - rewrite (Schema_run tb p Hlen). cbv zeta. unfold dropPasses.
    destruct (DropDatabase (specName (tb_name tb)) p) as [err p1] eqn:Hd.
    destruct (ignoreTableNotExist err) as [e|] eqn:Hi; [discriminate|].
    unfold SchemaCreate.
    destruct (CreateDatabase (specName (tb_name tb)) p1) as [[e|] p2] eqn:Hc;
      [discriminate|].
    intros [= <- <-]. rewrite Hd. cbn [fst snd]. rewrite Hi, Hc. repeat split.
  - rewrite (Schema_too_long tb p Hlen). discriminate.
Qed.

End SchemaReturns.

Section Registration.
Context `{Strings.Unicode} {P : Type} `{Pgdb P}.

Local Open Scope list_scope.

(** X6. [Schema] registers its cleanup exactly when it returns.  When it
    returns, the name it returns is the transformed test name, the cleanup
    for that very name is on top of the ones registered before, the log has
    grown by the one line naming the schema and the test's failure mark is as
    it was.  When it stops the test, the test is marked failed and no cleanup
    is registered. *)
Theorem Schema_registers (tb : TB) (p : P) :
  (forall n s', Schema (tb, p) = (Returned n, s') ->
     n = specName (tb_name tb)
     /\ tb_cleanups (fst s') = cleanupSchema n :: tb_cleanups tb
     /\ tb_log (fst s') = tb_log tb ++ Logged "Using schema %q." (n :: nil) :: nil
     /\ tb_failed (fst s') = tb_failed tb)
  /\ (forall s', Schema (tb, p) = (Goexit, s') ->
     tb_failed (fst s') = true /\ tb_cleanups (fst s') = tb_cleanups tb).
Proof.
  destruct (String.length (specName (tb_name tb)) <? 64)%nat eqn:Hlen.
  - rewrite (Schema_run tb p Hlen). cbv zeta.
    destruct (DropDatabase (specName (tb_name tb)) p) as [err p1].
    destruct (ignoreTableNotExist err) as [e|].
    + split; [discriminate|].
      intros s' [= <-]. split; reflexivity.
    + unfold SchemaCreate.
      destruct (CreateDatabase (specName (tb_name tb)) p1) as [[e|] p2].
      * split; [discriminate|].
        intros s' [= <-]. split; reflexivity.
      * split; [|discriminate].
        intros n s' [= <- <-]. repeat split.
  - rewrite (Schema_too_long tb p Hlen).
    split; [discriminate|].
    intros s' [= <-]. split; reflexivity.
Qed.

(** X7. The cleanup of [Schema] keeps the schema of a failed test: it makes
    no call on the pool, logs that the schema is kept and returns.  For a
    test that has not failed it makes exactly one call, the drop of that
    schema; it returns, the test's state as it was, when the drop returned
    nil or the sentinel, and surfaces any other error. *)
Theorem cleanup_keeps_or_drops (schema : string) (tb : TB) (t : list call) (p : P) :
  (tb_failed tb = true ->
     runCleanup (cleanupSchema schema) (tb, ((t, p) : Traced P))
     = (Returned tt,
        (addLog (Logged "Keeping schema %q for debugging." (schema :: nil)) tb,
         (t, p))))
  /\ (tb_failed tb = false ->
      fst (snd (snd (runCleanup (cleanupSchema schema) (tb, ((t, p) : Traced P)))))
      = t ++ callDropDatabase schema :: nil
      /\ (dropPasses (fst (DropDatabase schema p)) = true ->
          runCleanup (cleanupSchema schema) (tb, p)
          = (Returned tt, (tb, snd (DropDatabase schema p))))
      /\ (forall e, fst (DropDatabase schema p) = Some e -> e <> ErrTableNotExist ->
          surfaced e (runCleanup (cleanupSchema schema) (tb, p)))).
Proof.
  split; intros Hf.
  - rewrite runCleanup_run, Hf. reflexivity.
  - rewrite (runCleanup_run (P := Traced P)), (runCleanup_run schema tb p), Hf.
    rewrite traced_DropDatabase. unfold dropPasses.
    destruct (DropDatabase schema p) as [err p1]. cbn [fst snd].
    split; [destruct (ignoreTableNotExist err); reflexivity|]. split.
    + destruct (ignoreTableNotExist err); [discriminate | reflexivity].
    + intros e -> Hne. rewrite (ignoreTableNotExist_other e Hne).
      apply surfaced_failedWith.
Qed.

(** X8. [Schema] and its cleanup together: when [Schema] has returned for a
    test that had not failed and the test ends without failing, running the
    cleanup it registered asks for the drop of the schema it had created, so
    that the pool has seen the drop, the creation and the drop of that one
    schema; if the test has failed by then, the cleanup asks for nothing. *)
Theorem Schema_then_cleanup (tb : TB) (t : list call) (p : P)
    (n : string) (tb' : TB) (t' : list call) (p' : P) :
  tb_failed tb = false ->
  Schema (tb, ((t, p) : Traced P)) = (Returned n, (tb', (t', p'))) ->
  head (tb_cleanups tb') = Some (cleanupSchema n)
  /\ fst (snd (snd (runCleanup (cleanupSchema n) (tb', ((t', p') : Traced P)))))
     = t ++ callDropDatabase n :: callCreateDatabase n :: callDropDatabase n :: nil
  /\ fst (snd (snd (runCleanup (cleanupSchema n) (setFailed tb', ((t', p') : Traced P)))))
     = t ++ callDropDatabase n :: callCreateDatabase n :: nil.
Proof.
  intros Hf Hs.
  destruct (Schema_returned (P := Traced P) tb (t, p) n _ Hs) as (Hn & _ & _ & Hs').
  rewrite traced_DropDatabase in Hs'. cbn [snd] in Hs'.
  rewrite traced_CreateDatabase in Hs'. cbn [snd] in Hs'.
  injection Hs' as -> -> ->.
  split; [reflexivity|]. split.
  - rewrite (runCleanup_run (P := Traced P)). cbn [tb_failed addCleanup schemaLogged addLog].
    rewrite Hf, traced_DropDatabase.
    destruct (ignoreTableNotExist _); cbn [fst snd]; rewrite <- !app_assoc; reflexivity.
  - rewrite (runCleanup_run (P := Traced P)). cbn [tb_failed setFailed fst snd].
    rewrite <- app_assoc. reflexivity.
Qed.

End Registration.

Lemma Schema_registers_witness :
  tb_cleanups
    (fst (snd (@Schema Strings.ASCIIOnly Scripted _
                 (newTB "TestEnvData", mkScripted nil nil))))
  = cleanupSchema "testenvdata" :: nil.
Proof.
  refine (proj1 (proj2 (proj1
           (@Schema_registers Strings.ASCIIOnly Scripted _
              (newTB "TestEnvData") (mkScripted nil nil))
           "testenvdata" _ eq_refl))).
Defined.

Lemma cleanup_keeps_or_drops_witness :
  @runCleanup (Traced Scripted) _ (cleanupSchema "testenvdata")
    (setFailed (newTB "TestEnvData"), (nil, mkScripted nil nil))
  = (Returned tt,
     (addLog (Logged "Keeping schema %q for debugging." ("testenvdata" :: nil))
        (setFailed (newTB "TestEnvData")),
      (nil, mkScripted nil nil))).
Proof.
  exact (proj1 (@cleanup_keeps_or_drops Scripted _ "testenvdata"
                  (setFailed (newTB "TestEnvData")) nil (mkScripted nil nil))
           eq_refl).
Defined.

Lemma Schema_then_cleanup_witness :
  fst (snd (snd (@runCleanup (Traced Scripted) _ (cleanupSchema "testenvdata")
    (addCleanup (cleanupSchema "testenvdata")
       (addLog (Logged "Using schema %q." ("testenvdata" :: nil)) (newTB "TestEnvData")),
     (callDropDatabase "testenvdata" :: callCreateDatabase "testenvdata" :: nil,
      mkScripted nil
        (callDropDatabase "testenvdata" :: callCreateDatabase "testenvdata" :: nil))))))
  = callDropDatabase "testenvdata" :: callCreateDatabase "testenvdata"
    :: callDropDatabase "testenvdata" :: nil.
Proof.
  refine (proj1 (proj2
           (@Schema_then_cleanup Strings.ASCIIOnly Scripted _
              (newTB "TestEnvData") nil (mkScripted nil nil)
              "testenvdata" _ _ _ eq_refl eq_refl))).
Defined.

(** ** [Pool] *)

Section PoolFacts.
Context {P : Type} `{PgdbConnect P}.

Local Open Scope list_scope.

(** What [Pool] does, in one equation. *)
Lemma Pool_run (opts : option PoolOpts) (x : PoolTB) (p : P) :
  Pool opts (x, p)
  = if tb_short (ptb_tb x) then
      (Goexit,
       (mkPoolTB (setSkipped (addLog (Logged "skipping in -short mode" nil) (ptb_tb x)))
                 (ptb_closes x), p))
    else
      let connString := connStringOf (roleUser (mkPoolOpts (readOnlyOf opts))) in
      match NewPool connString false p with
      | (Some e, p1) =>
          (Goexit, (mkPoolTB (failedWith e (ptb_tb x)) (ptb_closes x), p1))
      | (None, p1) =>
          (Returned tt,
           (mkPoolTB (ptb_tb x)
              ((length (tb_cleanups (ptb_tb x)) + length (ptb_closes x))%nat
               :: ptb_closes x), p1))
      end.
Proof.
  assert (Hopts : PoolConnString opts (ptb_tb x)
                  = PoolConnString (Some (mkPoolOpts (readOnlyOf opts))) (ptb_tb x))
    by (destruct opts as [[ro]|]; reflexivity).
  unfold Pool, mbind, M_bind, onPoolTB, onBackend, CleanupClose.
  cbn [fst snd testing.Helper mret M_ret ptb_tb ptb_closes].
  rewrite Hopts. destruct (tb_short (ptb_tb x)) eqn:Hs.
  - rewrite PoolConnString_short by exact Hs. reflexivity.
  - rewrite PoolConnString_returns by exact Hs. cbv zeta. cbn [fst snd].
    destruct (NewPool _ false p) as [[e|] p1]; destruct x; reflexivity.
Qed.

(** X9. [Pool] asks for a pool only when the test is not skipped: with
    [-short] set it stops the test as skipped, not failed, before any call on
    the backend.  Otherwise it makes one call, [NewPool] with the connection
    string [PoolConnString] gives for the options and with [lazy] false.  If
    that returns an error the test is stopped as failed, the error reported,
    and [pool.Close] is not registered; if not, [pool.Close] is registered
    above every cleanup function registered before, and the test's state is
    otherwise as it was. *)
Theorem Pool_connects (opts : option PoolOpts) (x : PoolTB) (p : P) :
  (tb_short (ptb_tb x) = true ->
     fst (Pool opts (x, p)) = Goexit
     /\ snd (snd (Pool opts (x, p))) = p
     /\ tb_skipped (ptb_tb (fst (snd (Pool opts (x, p))))) = true
     /\ tb_failed (ptb_tb (fst (snd (Pool opts (x, p))))) = tb_failed (ptb_tb x)
     /\ ptb_closes (fst (snd (Pool opts (x, p)))) = ptb_closes x)
  /\ (tb_short (ptb_tb x) = false ->
      forall cs, PoolConnString opts (ptb_tb x) = (Returned cs, ptb_tb x) ->
      snd (snd (Pool opts (x, p))) = snd (NewPool cs false p)
      /\ (fst (NewPool cs false p) = None ->
          fst (Pool opts (x, p)) = Returned tt
          /\ ptb_tb (fst (snd (Pool opts (x, p)))) = ptb_tb x
          /\ ptb_closes (fst (snd (Pool opts (x, p))))
             = (length (tb_cleanups (ptb_tb x)) + length (ptb_closes x))%nat
               :: ptb_closes x)
      /\ (forall e, fst (NewPool cs false p) = Some e ->
          fst (Pool opts (x, p)) = Goexit
          /\ tb_failed (ptb_tb (fst (snd (Pool opts (x, p))))) = true
          /\ In (UnexpectedError e) (tb_log (ptb_tb (fst (snd (Pool opts (x, p))))))
          /\ ptb_closes (fst (snd (Pool opts (x, p)))) = ptb_closes x)).
Proof.
  rewrite Pool_run. split; intros Hs; rewrite Hs.
  - repeat split.
  - intros cs Hcs.
    assert (Hopts : PoolConnString opts (ptb_tb x)
                    = PoolConnString (Some (mkPoolOpts (readOnlyOf opts))) (ptb_tb x))
      by (destruct opts as [[ro]|]; reflexivity).
    rewrite Hopts, PoolConnString_returns in Hcs by exact Hs.
    injection Hcs as <-. cbv zeta.
    destruct (NewPool _ false p) as [[e|] p1]; cbn [fst snd ptb_tb ptb_closes].
    + split; [reflexivity|]. split; [discriminate|].
      intros e' [= <-]. unfold failedWith. cbn. repeat split.
      apply in_or_app. right. left. reflexivity.
    + split; [reflexivity|]. split; [repeat split | discriminate].
Qed.

End PoolFacts.

Lemma Pool_connects_witness :
  asked (snd (snd (Pool (Some (mkPoolOpts true))
                     (mkPoolTB (newTB "TestQuery") nil, mkConnections nil nil))))
  = ("postgres://readonly@127.0.0.1:5432/ferretdb?pool_min_conns=1", false) :: nil.
Proof.
  rewrite (proj1 (proj2 (@Pool_connects Connections _ (Some (mkPoolOpts true))
                           (mkPoolTB (newTB "TestQuery") nil) (mkConnections nil nil))
                    eq_refl _ eq_refl)).
  reflexivity.
Defined.

(** ** Failures are reported *)

Section Reports.
Context `{Strings.Unicode} {P : Type} `{Pgdb P}.

Local Open Scope list_scope.

Lemma stoppedWithReport_failedWith {S A} (tbOf : S -> TB) (s : S) (e : error) (tb : TB) :
  tbOf s = failedWith e tb ->
  stoppedWithReport (A := A) tbOf (Goexit, s).
Proof.
  intros Hs. unfold stoppedWithReport. cbn [fst snd]. rewrite Hs.
  unfold failedWith. cbn. repeat split.
  exists (UnexpectedError e). split; [apply last_snoc | reflexivity].
Qed.

Lemma reportsItsStops_cases {S A} (tbOf : S -> TB) (tb : TB) (r : outcome A * S) :
  ((exists a, fst r = Returned a) /\ tb_failed (tbOf (snd r)) = tb_failed tb)
  \/ stoppedWithReport tbOf r ->
  reportsItsStops tbOf tb r.
Proof.
  intros [[[a Ha] Hf] | Hstop]; split.
  - intros _ _. exact Hf.
  - intros Hg. rewrite Ha in Hg. discriminate.
  - intros a Ha. destruct Hstop as (Hg & _). rewrite Ha in Hg. discriminate.
  - intros _. exact Hstop.
Qed.

(** X10. No helper fails a test silently.  When [SchemaName], [Schema],
    [Table] or the cleanup of [Schema] stops the test, the test is marked
    failed and the failure is reported in the last line of its log; when it
    returns, the test's failure mark is as it was. *)
Theorem helpers_return_or_report (db : string) (c : cleanup) (tb : TB) (p : P) :
  reportsItsStops (fun tb' => tb') tb (SchemaName tb)
  /\ reportsItsStops fst tb (Schema (tb, p))
  /\ reportsItsStops fst tb (Table db (tb, p))
  /\ reportsItsStops fst tb (runCleanup c (tb, p)).
Proof.
  split; [|split; [|split]]; apply reportsItsStops_cases.
  - rewrite SchemaName_run. destruct (_ <? 64)%nat.
    + left. split; [eexists|]; reflexivity.
    + right. unfold stoppedWithReport. cbn. repeat split.
      eexists. split; [apply last_snoc | reflexivity].
  - destruct (String.length (specName (tb_name tb)) <? 64)%nat eqn:Hlen.
    + rewrite (Schema_run tb p Hlen). cbv zeta.
      destruct (DropDatabase (specName (tb_name tb)) p) as [err p1].
      destruct (ignoreTableNotExist err) as [e|].
      * right. eapply stoppedWithReport_failedWith. reflexivity.
      * unfold SchemaCreate.
        destruct (CreateDatabase (specName (tb_name tb)) p1) as [[e|] p2].
        -- right. eapply stoppedWithReport_failedWith. reflexivity.
        -- left. split; [eexists|]; reflexivity.
    + rewrite (Schema_too_long tb p Hlen).
      right. unfold stoppedWithReport. cbn. repeat split.
      eexists. split; [apply last_snoc | reflexivity].
  - rewrite Table_run. cbv zeta.
    destruct (DropCollection db (specName (tb_name tb)) p) as [err p1].
    destruct (ignoreTableNotExist err) as [e|].
    + right. eapply stoppedWithReport_failedWith. reflexivity.
    + unfold TableCreate.
      destruct (CreateCollection db (specName (tb_name tb)) p1) as [[e|] p2].
      * right. eapply stoppedWithReport_failedWith. reflexivity.
      * left. split; [eexists|]; reflexivity.
  - destruct c as [schema]. rewrite runCleanup_run.
    destruct (tb_failed tb) eqn:Hf.
    + left. split; [eexists; reflexivity|]. cbn. congruence.
    + destruct (DropDatabase schema p) as [err p1].
      destruct (ignoreTableNotExist err) as [e|].
      * right. eapply stoppedWithReport_failedWith. reflexivity.
      * left. split; [eexists; reflexivity|]. cbn. congruence.
Qed.

End Reports.

(** ** A schema and a table for one test *)

Section SetupFacts.
Context `{Strings.Unicode} {P : Type} `{Pgdb P}.

Local Open Scope list_scope.

(** X11. [Schema] followed by [Table] in the schema it returned: when both
    return, the table bears the name of the schema, the name of the test
    transformed, and the pool has been asked, in this order, to drop and
    create that schema and to drop and create that table in that schema, and
    for nothing else; the cleanup registered is the schema's alone. *)
Theorem SchemaAndTable_calls (tb : TB) (t : list call) (p : P)
    (schema table : string) (tb' : TB) (t' : list call) (p' : P) :
  SchemaAndTable (tb, ((t, p) : Traced P)) = (Returned (schema, table), (tb', (t', p'))) ->
  schema = specName (tb_name tb)
  /\ table = schema
  /\ t' = t ++ callDropDatabase schema :: callCreateDatabase schema
            :: callDropCollection schema table :: callCreateCollection schema table
            :: nil
  /\ tb_cleanups tb' = cleanupSchema schema :: tb_cleanups tb.
Proof.
  unfold SchemaAndTable, mbind, M_bind.
  destruct (Schema (tb, ((t, p) : Traced P))) as [[n| |msg] [tb1 [t1 p1]]] eqn:Hs;
    try discriminate.
  apply (Schema_returned (P := Traced P)) in Hs as (Hn & _ & _ & Hs1).
  rewrite traced_DropDatabase in Hs1. cbn [snd] in Hs1.
  rewrite traced_CreateDatabase in Hs1. cbn [snd] in Hs1.
  injection Hs1 as -> -> ->.
  rewrite (Table_run (P := Traced P)). cbv zeta.
  rewrite traced_DropCollection. cbn [fst snd].
  destruct (ignoreTableNotExist _) as [e|]; [discriminate|].
  unfold TableCreate. rewrite traced_CreateCollection. cbn [fst snd].
  destruct (fst (CreateCollection _ _ _)) as [e|]; [discriminate|].
  cbn [mret M_ret]. intros [= <- <- <- <- <-].
  cbn [tb_name addCleanup schemaLogged tableLogged addLog tb_cleanups].
  rewrite <- !app_assoc. repeat split; congruence.
Qed.

End SetupFacts.

Lemma SchemaAndTable_calls_witness :
  fst (snd (snd (@SchemaAndTable Strings.ASCIIOnly (Traced Scripted) _
                   (newTB "TestEnvData", (nil, mkScripted nil nil)))))
  = callDropDatabase "testenvdata" :: callCreateDatabase "testenvdata"
    :: callDropCollection "testenvdata" "testenvdata"
    :: callCreateCollection "testenvdata" "testenvdata" :: nil.
Proof.
  exact (proj1 (proj2 (proj2
    (@SchemaAndTable_calls Strings.ASCIIOnly Scripted _
       (newTB "TestEnvData") nil (mkScripted nil nil)
       "testenvdata" "testenvdata"
       (addLog (Logged "Using table %q." ("testenvdata" :: nil))
          (addCleanup (cleanupSchema "testenvdata")
             (addLog (Logged "Using schema %q." ("testenvdata" :: nil))
                (newTB "TestEnvData"))))
       (callDropDatabase "testenvdata" :: callCreateDatabase "testenvdata"
        :: callDropCollection "testenvdata" "testenvdata"
        :: callCreateCollection "testenvdata" "testenvdata" :: nil)
       (mkScripted nil
          (callDropDatabase "testenvdata" :: callCreateDatabase "testenvdata"
           :: callDropCollection "testenvdata" "testenvdata"
           :: callCreateCollection "testenvdata" "testenvdata" :: nil))
       eq_refl)))).
Defined.
